(** * LedBlinker topology: bring-up, tear-down and the simulated cycle

    A shallow embedding of [LedBlinker/Top/LedBlinkerTopology.cpp].

    The file is a sequence of calls into components that are generated or
    that belong to the F Prime framework.  Those calls are the observable
    behaviour of the topology code, so the embedding records them, in
    order and with their arguments, in a call log that is threaded through
    a small state monad.  The global variables of the file are fields of
    the same state. *)

From Stdlib Require Import String Ascii ZArith Bool Arith Lia List Sorted.
Import ListNotations.

Local Open Scope Z_scope.

(** ** Data *)

(** Modelled from the spec: [TopologyState], whose declaration (the
    deployment's [TopologyDefs] header) is missing from the sources.  The
    spec gives it an optional network endpoint, a host string and a port
    number.  The code compares [hostname] with [nullptr] and [port] with
    [0]: the host is a nullable C string, an [option string]. *)
Record TopologyState := {
  hostname : option string;
  port : Z
}.

(** Objects that are passed by reference are identified by the name of the
    C++ variable. *)
Definition Allocator := string.
Definition mallocator : Allocator := "mallocator"%string.

Inductive Protocol := framing | deframing.

(** [Drv::LinuxGpioDriver::GpioDirection]. *)
Inductive GpioDirection := GPIO_IN | GPIO_OUT | GPIO_INT.

(** The thresholds of a ping entry are generated constants
    ([PingEntries::blockDrv::WARN] and the like); they stay symbolic. *)
Inductive PingThreshold :=
| WARN (instance : string)
| FATAL (instance : string).

Record PingEntry := {
  warnCycles : PingThreshold;
  fatalCycles : PingThreshold;
  entryName : string
}.

(** One bin of [Svc::BufferManager::BufferBins]. *)
Record BufferBin := {
  bufferSize : Z;
  numBuffers : Z
}.

(** Constants of the framework headers that the file uses and that are
    not part of the sources at hand.  They are parameters of the model. *)
Record FrameworkConstants := {
  DIVIDER_SIZE : nat;            (* Svc::RateGroupDriver::DIVIDER_SIZE *)
  CONNECTION_COUNT_MAX : nat;    (* Svc::ActiveRateGroup::CONNECTION_COUNT_MAX *)
  BUFFERMGR_MAX_NUM_BINS : nat;  (* length of BufferBins::bins *)
  STACK_SIZE : Z                 (* Default::STACK_SIZE *)
}.

(** [enum TopologyConstants]. *)
Definition CMD_SEQ_BUFFER_SIZE : Z := 5 * 1024.
Definition FILE_DOWNLINK_TIMEOUT : Z := 1000.
Definition FILE_DOWNLINK_COOLDOWN : Z := 1000.
Definition FILE_DOWNLINK_CYCLE_TIME : Z := 1000.
Definition FILE_DOWNLINK_FILE_QUEUE_DEPTH : Z := 10.
Definition HEALTH_WATCHDOG_CODE : Z := 0x123.
Definition COMM_PRIORITY : Z := 100.
Definition UPLINK_BUFFER_MANAGER_STORE_SIZE : Z := 3000.
Definition UPLINK_BUFFER_MANAGER_QUEUE_SIZE : Z := 30.
Definition UPLINK_BUFFER_MANAGER_ID : Z := 200.

(** Threads that take the cycle mutex: the one thread that runs
    [startSimulatedCycle], and any number of threads that call
    [stopSimulatedCycle]. *)
Inductive Thread :=
| Cycler
| Stopper (i : nat).

(** ** Calls into the components and the operating system

    One constructor per external function the file calls, the mutex apart
    (the mutex is state, see [cycleLock]). *)
Inductive Call :=
| initComponents (state : TopologyState)
| setBaseIds
| connectComponents
| regCommands
| cmdSeq_allocateBuffer (identifier : Z) (allocator : Allocator) (bytes : Z)
| rateGroupDriver_configure (dividers : list Z) (numDividers : nat)
| rateGroup1_configure (contexts : list Z) (numContexts : nat)
| rateGroup2_configure (contexts : list Z) (numContexts : nat)
| rateGroup3_configure (contexts : list Z) (numContexts : nat)
| fileDownlink_configure (timeout cooldown cycleTime fileQueueDepth : Z)
| prmDb_configure (file : string)
| prmDb_readParamFile
| health_setPingEntries (entries : list PingEntry) (numEntries : nat)
                        (watchdogCode : Z)
| fileUplinkBufferManager_setup (mgrId identifier : Z) (allocator : Allocator)
                                (bins : list BufferBin)
| downlink_setup (protocol : Protocol)
| uplink_setup (protocol : Protocol)
| gpioDriver_open (pin : Z) (direction : GpioDirection)
| printf (text : string)
| startTasks (state : TopologyState)
| comm_configure (host : string) (portNumber : Z)
| comm_startSocketTask (name : string) (reconnect : bool) (priority stack : Z)
| blockDrv_callIsr
| Task_delay (milliseconds : Z)
| stopTasks (state : TopologyState)
| freeThreads (state : TopologyState)
| comm_stopSocketTask
| comm_joinSocketTask
| cmdSeq_deallocateBuffer (allocator : Allocator)
| fileUplinkBufferManager_cleanup.

(** ** The state the file works on *)

Record World := {
  calls : list Call;                 (* calls made so far, oldest first *)
  rateGroupDivisors : list Z;        (* global array *)
  rateGroup1Context : list Z;        (* global array *)
  rateGroup2Context : list Z;        (* global array *)
  rateGroup3Context : list Z;        (* global array *)
  pingEntries : list PingEntry;      (* global array *)
  cycleLock : option Thread;         (* Os::Mutex: the thread that holds it *)
  cycleFlag : bool;                  (* volatile bool cycleFlag *)
  gpio_line : Z -> GpioDirection -> bool
                                     (* environment: does open(pin, dir) succeed *)
}.

Definition with_calls (w : World) (l : list Call) : World :=
  {| calls := l;
     rateGroupDivisors := rateGroupDivisors w;
     rateGroup1Context := rateGroup1Context w;
     rateGroup2Context := rateGroup2Context w;
     rateGroup3Context := rateGroup3Context w;
     pingEntries := pingEntries w;
     cycleLock := cycleLock w;
     cycleFlag := cycleFlag w;
     gpio_line := gpio_line w |}.

Definition with_cycleLock (w : World) (o : option Thread) : World :=
  {| calls := calls w;
     rateGroupDivisors := rateGroupDivisors w;
     rateGroup1Context := rateGroup1Context w;
     rateGroup2Context := rateGroup2Context w;
     rateGroup3Context := rateGroup3Context w;
     pingEntries := pingEntries w;
     cycleLock := o;
     cycleFlag := cycleFlag w;
     gpio_line := gpio_line w |}.

Definition with_cycleFlag (w : World) (b : bool) : World :=
  {| calls := calls w;
     rateGroupDivisors := rateGroupDivisors w;
     rateGroup1Context := rateGroup1Context w;
     rateGroup2Context := rateGroup2Context w;
     rateGroup3Context := rateGroup3Context w;
     pingEntries := pingEntries w;
     cycleLock := cycleLock w;
     cycleFlag := b;
     gpio_line := gpio_line w |}.

Definition with_rateGroupDivisors (w : World) (l : list Z) : World :=
  {| calls := calls w;
     rateGroupDivisors := l;
     rateGroup1Context := rateGroup1Context w;
     rateGroup2Context := rateGroup2Context w;
     rateGroup3Context := rateGroup3Context w;
     pingEntries := pingEntries w;
     cycleLock := cycleLock w;
     cycleFlag := cycleFlag w;
     gpio_line := gpio_line w |}.

Definition with_gpio_line (w : World) (f : Z -> GpioDirection -> bool) : World :=
  {| calls := calls w;
     rateGroupDivisors := rateGroupDivisors w;
     rateGroup1Context := rateGroup1Context w;
     rateGroup2Context := rateGroup2Context w;
     rateGroup3Context := rateGroup3Context w;
     pingEntries := pingEntries w;
     cycleLock := cycleLock w;
     cycleFlag := cycleFlag w;
     gpio_line := f |}.

(** ** A state monad over [World] *)

Definition M (A : Type) : Type := World -> A * World.

Definition ret {A : Type} (a : A) : M A := fun w => (a, w).

Definition bind {A B : Type} (m : M A) (k : A -> M B) : M B :=
  fun w => let (a, w') := m w in k a w'.

Declare Scope topology_scope.
Delimit Scope topology_scope with topo.
Notation "x <- m ;; k" := (bind m (fun x => k))
  (at level 61, m at next level, right associativity) : topology_scope.
Notation "m ;; k" := (bind m (fun _ => k))
  (at level 61, right associativity) : topology_scope.
Local Open Scope topology_scope.

Definition exec {A : Type} (m : M A) (w : World) : World := snd (m w).
Definition result {A : Type} (m : M A) (w : World) : A := fst (m w).

(** A call that returns nothing the file looks at. *)
Definition call (c : Call) : M unit :=
  fun w => (tt, with_calls w (calls w ++ [c])).

(** A call whose result the file looks at; the result comes from the
    environment. *)
Definition call_gpioDriver_open (pin : Z) (direction : GpioDirection) : M bool :=
  fun w => (gpio_line w pin direction,
            with_calls w (calls w ++ [gpioDriver_open pin direction])).

Definition read {A : Type} (field : World -> A) : M A := fun w => (field w, w).

(** [w] with the calls [l] added to its log. *)
Definition add_calls (w : World) (l : list Call) : World :=
  with_calls w (calls w ++ l).

(** A computation that changes nothing but the log, to which it adds [l]. *)
Definition logs {A : Type} (m : M A) (w : World) (l : list Call) : Prop :=
  exec m w = add_calls w l.

(** The same for a run that starts after the calls [pre]. *)
Definition logs_from {A : Type} (m : M A) (w : World) (pre l : list Call)
    : Prop :=
  exec m (add_calls w pre) = add_calls w (pre ++ l).

(** The calls a computation adds to the log when it runs from [w]. *)
Definition trace {A : Type} (m : M A) (w : World) : list Call :=
  skipn (length (calls w)) (calls (exec m w)).

(** ** Initial values of the globals *)

(** [T a[n] = { init }]: the initialisers, then zeros. *)
Definition aggregate (n : nat) (init : list Z) : list Z :=
  firstn n (init ++ repeat 0 (n - length init)).

Definition initial_pingEntries : list PingEntry :=
  [ {| warnCycles := WARN "blockDrv"; fatalCycles := FATAL "blockDrv";
       entryName := "blockDrv" |};
    {| warnCycles := WARN "tlmSend"; fatalCycles := FATAL "tlmSend";
       entryName := "chanTlm" |};
    {| warnCycles := WARN "cmdDisp"; fatalCycles := FATAL "cmdDisp";
       entryName := "cmdDisp" |};
    {| warnCycles := WARN "cmdSeq"; fatalCycles := FATAL "cmdSeq";
       entryName := "cmdSeq" |};
    {| warnCycles := WARN "eventLogger"; fatalCycles := FATAL "eventLogger";
       entryName := "eventLogger" |};
    {| warnCycles := WARN "fileDownlink"; fatalCycles := FATAL "fileDownlink";
       entryName := "fileDownlink" |};
    {| warnCycles := WARN "fileManager"; fatalCycles := FATAL "fileManager";
       entryName := "fileManager" |};
    {| warnCycles := WARN "fileUplink"; fatalCycles := FATAL "fileUplink";
       entryName := "fileUplink" |};
    {| warnCycles := WARN "prmDb"; fatalCycles := FATAL "prmDb";
       entryName := "prmDb" |};
    {| warnCycles := WARN "rateGroup1"; fatalCycles := FATAL "rateGroup1";
       entryName := "rateGroup1" |};
    {| warnCycles := WARN "rateGroup2"; fatalCycles := FATAL "rateGroup2";
       entryName := "rateGroup2" |};
    {| warnCycles := WARN "rateGroup3"; fatalCycles := FATAL "rateGroup3";
       entryName := "rateGroup3" |} ]%string.

(** The state at process start: nothing called yet, the globals as their
    initialisers leave them, the mutex free, [cycleFlag = true]. *)
Definition initial_world (fw : FrameworkConstants)
    (gpio : Z -> GpioDirection -> bool) : World :=
  {| calls := [];
     rateGroupDivisors := aggregate (DIVIDER_SIZE fw) [1; 2; 4];
     rateGroup1Context := aggregate (CONNECTION_COUNT_MAX fw) [];
     rateGroup2Context := aggregate (CONNECTION_COUNT_MAX fw) [];
     rateGroup3Context := aggregate (CONNECTION_COUNT_MAX fw) [];
     pingEntries := initial_pingEntries;
     cycleLock := None;
     cycleFlag := true;
     gpio_line := gpio |}.

(** ** configureTopology *)

Definition LF : string := String (ascii_of_nat 10) EmptyString.

(** [memset(&bins, 0, sizeof(bins))]. *)
Definition zeroed_bins (fw : FrameworkConstants) : list BufferBin :=
  repeat {| bufferSize := 0; numBuffers := 0 |} (BUFFERMGR_MAX_NUM_BINS fw).

(** [bins[0] = b] on an array that has a first element. *)
Definition set_first_bin (b : BufferBin) (bins : list BufferBin) : list BufferBin :=
  match bins with
  | [] => []
  | _ :: rest => b :: rest
  end.

Definition configureTopology (fw : FrameworkConstants) : M unit :=
  call (cmdSeq_allocateBuffer 0 mallocator CMD_SEQ_BUFFER_SIZE) ;;
  divisors <- read rateGroupDivisors ;;
  call (rateGroupDriver_configure divisors (length divisors)) ;;
  context1 <- read rateGroup1Context ;;
  call (rateGroup1_configure context1 (length context1)) ;;
  context2 <- read rateGroup2Context ;;
  call (rateGroup2_configure context2 (length context2)) ;;
  context3 <- read rateGroup3Context ;;
  call (rateGroup3_configure context3 (length context3)) ;;
  call (fileDownlink_configure FILE_DOWNLINK_TIMEOUT FILE_DOWNLINK_COOLDOWN
          FILE_DOWNLINK_CYCLE_TIME FILE_DOWNLINK_FILE_QUEUE_DEPTH) ;;
  call (prmDb_configure "PrmDb.dat") ;;
  call prmDb_readParamFile ;;
  entries <- read pingEntries ;;
  call (health_setPingEntries entries (length entries) HEALTH_WATCHDOG_CODE) ;;
  let upBuffMgrBins :=
    set_first_bin {| bufferSize := UPLINK_BUFFER_MANAGER_STORE_SIZE;
                     numBuffers := UPLINK_BUFFER_MANAGER_QUEUE_SIZE |}
                  (zeroed_bins fw) in
  call (fileUplinkBufferManager_setup UPLINK_BUFFER_MANAGER_ID 0 mallocator
          upBuffMgrBins) ;;
  call (downlink_setup framing) ;;
  call (uplink_setup deframing) ;;
  gpio_success <- call_gpioDriver_open 13 GPIO_OUT ;;
  if negb gpio_success
  then call (printf ("[ERROR] Failed to open GPIO pin" ++ LF)%string)
  else ret tt.

(** ** setupTopology *)

(** [state.hostname != nullptr && state.port != 0]. *)
Definition has_endpoint (state : TopologyState) : bool :=
  match hostname state with
  | Some _ => negb (port state =? 0)
  | None => false
  end.

Definition setupTopology (fw : FrameworkConstants) (state : TopologyState) : M unit :=
  call (initComponents state) ;;
  call setBaseIds ;;
  call connectComponents ;;
  call regCommands ;;
  configureTopology fw ;;
  call (startTasks state) ;;
  match hostname state with
  | Some host =>
      if negb (port state =? 0)
      then
        let name := "ReceiveTask"%string in
        call (comm_configure host (port state)) ;;
        call (comm_startSocketTask name true COMM_PRIORITY (STACK_SIZE fw))
      else ret tt
  | None => ret tt
  end.

(** ** teardownTopology *)

Definition teardownTopology (state : TopologyState) : M unit :=
  call (stopTasks state) ;;
  call (freeThreads state) ;;
  call comm_stopSocketTask ;;
  call comm_joinSocketTask ;;
  call (cmdSeq_deallocateBuffer mallocator) ;;
  call fileUplinkBufferManager_cleanup.

(** ** The simulated cycle *)

(** [cycleLock.lock()] as the caller sees it once the call has returned:
    the caller holds the mutex.  The thread-level semantics below lets a
    thread take this step only while the mutex is free. *)
Definition cycleLock_lock (self : Thread) : M unit :=
  fun w => (tt, with_cycleLock w (Some self)).

Definition cycleLock_unLock : M unit :=
  fun w => (tt, with_cycleLock w None).

Definition set_cycleFlag (b : bool) : M unit :=
  fun w => (tt, with_cycleFlag w b).

(** [stopSimulatedCycle], run to completion by thread [self]. *)
Definition stopSimulatedCycle (self : Thread) : M unit :=
  cycleLock_lock self ;;
  set_cycleFlag false ;;
  cycleLock_unLock.

(** The [while (cycling)] loop of [startSimulatedCycle], run by [self]
    with nobody else running.  [fuel] bounds the number of iterations;
    the result is [true] when the loop was left, [false] when the fuel
    ran out first. *)
Fixpoint cycle_while (fuel : nat) (self : Thread) (milliseconds : Z)
    (cycling : bool) : M bool :=
  if cycling then
    match fuel with
    | O => ret false
    | S fuel' =>
        call blockDrv_callIsr ;;
        call (Task_delay milliseconds) ;;
        cycleLock_lock self ;;
        cycling' <- read cycleFlag ;;
        cycleLock_unLock ;;
        cycle_while fuel' self milliseconds cycling'
    end
  else ret true.

Definition startSimulatedCycle (fuel : nat) (self : Thread) (milliseconds : Z)
    : M bool :=
  cycleLock_lock self ;;
  cycling <- read cycleFlag ;;
  cycleLock_unLock ;;
  cycle_while fuel self milliseconds cycling.

(** *** Threads

    [startSimulatedCycle] runs on one thread while other threads call
    [stopSimulatedCycle].  Each thread is at one statement of its
    function; a schedule names the thread that executes its next
    statement.  A thread whose next statement is [lock()] on a mutex that
    is held does not move. *)

(** Statements of [startSimulatedCycle], with the local [cycling] where it
    is live. *)
Inductive CyclePc :=
| at_lock_first                     (* cycleLock.lock()            l.153 *)
| at_read_first                     (* bool cycling = cycleFlag    l.154 *)
| at_unlock_first (cycling : bool)  (* cycleLock.unLock()          l.155 *)
| at_while (cycling : bool)         (* while (cycling)             l.158 *)
| at_callIsr                        (* blockDrv.callIsr()          l.159 *)
| at_delay                          (* Os::Task::delay(ms)         l.160 *)
| at_lock                           (* cycleLock.lock()            l.162 *)
| at_read                           (* cycling = cycleFlag         l.163 *)
| at_unlock (cycling : bool)        (* cycleLock.unLock()          l.164 *)
| returned.                         (* startSimulatedCycle is left l.166 *)

(** Statements of [stopSimulatedCycle]; [stop_idle] is a thread that is
    not inside the function (and calls it with its next step). *)
Inductive StopPc :=
| stop_idle                         (* cycleLock.lock()            l.169 *)
| stop_at_write                     (* cycleFlag = false           l.170 *)
| stop_at_unlock.                   (* cycleLock.unLock()          l.171 *)

Record Machine := {
  world : World;
  cycler : CyclePc;
  seen : list bool;                 (* values of cycleFlag the cycler has read *)
  stoppers : nat -> StopPc
}.

Definition set_stopper (i : nat) (pc : StopPc) (f : nat -> StopPc)
    : nat -> StopPc :=
  fun j => if Nat.eqb j i then pc else f j.

Definition mutex_free (w : World) : bool :=
  match cycleLock w with
  | None => true
  | Some _ => false
  end.

Definition cycler_step (milliseconds : Z) (m : Machine) : Machine :=
  let w := world m in
  let goto pc w' :=
    {| world := w'; cycler := pc; seen := seen m; stoppers := stoppers m |} in
  let observe pc :=
    {| world := w; cycler := pc (cycleFlag w); seen := seen m ++ [cycleFlag w];
       stoppers := stoppers m |} in
  match cycler m with
  | at_lock_first =>
      if mutex_free w then goto at_read_first (exec (cycleLock_lock Cycler) w)
      else m
  | at_read_first => observe at_unlock_first
  | at_unlock_first c => goto (at_while c) (exec cycleLock_unLock w)
  | at_while c => if c then goto at_callIsr w else goto returned w
  | at_callIsr => goto at_delay (exec (call blockDrv_callIsr) w)
  | at_delay => goto at_lock (exec (call (Task_delay milliseconds)) w)
  | at_lock =>
      if mutex_free w then goto at_read (exec (cycleLock_lock Cycler) w)
      else m
  | at_read => observe at_unlock
  | at_unlock c => goto (at_while c) (exec cycleLock_unLock w)
  | returned => m
  end.

Definition stopper_step (i : nat) (m : Machine) : Machine :=
  let w := world m in
  let goto pc w' :=
    {| world := w'; cycler := cycler m; seen := seen m;
       stoppers := set_stopper i pc (stoppers m) |} in
  match stoppers m i with
  | stop_idle =>
      if mutex_free w
      then goto stop_at_write (exec (cycleLock_lock (Stopper i)) w)
      else m
  | stop_at_write => goto stop_at_unlock (exec (set_cycleFlag false) w)
  | stop_at_unlock => goto stop_idle (exec cycleLock_unLock w)
  end.

Definition step (milliseconds : Z) (t : Thread) (m : Machine) : Machine :=
  match t with
  | Cycler => cycler_step milliseconds m
  | Stopper i => stopper_step i m
  end.

Definition run (milliseconds : Z) (schedule : list Thread) (m : Machine)
    : Machine :=
  fold_left (fun m t => step milliseconds t m) schedule m.

(** [startSimulatedCycle] has just been called; no thread is inside
    [stopSimulatedCycle]. *)
Definition boot (w : World) : Machine :=
  {| world := w; cycler := at_lock_first; seen := [];
     stoppers := fun _ => stop_idle |}.

(** Does the cycler move when it is scheduled? *)
Definition cycler_enabled (m : Machine) : bool :=
  match cycler m with
  | at_lock_first | at_lock => mutex_free (world m)
  | returned => false
  | _ => true
  end.

(** Number of statements the cycler executes under a schedule. *)
Fixpoint cycler_moves (milliseconds : Z) (schedule : list Thread) (m : Machine)
    : nat :=
  match schedule with
  | [] => 0%nat
  | t :: rest =>
      ((match t with
        | Cycler => if cycler_enabled m then 1 else 0
        | Stopper _ => 0
        end) + cycler_moves milliseconds rest (step milliseconds t m))%nat
  end.

Definition is_callIsr (c : Call) : bool :=
  match c with
  | blockDrv_callIsr => true
  | _ => false
  end.

(** Number of tick callbacks made so far. *)
Definition ticks (w : World) : nat := List.length (filter is_callIsr (calls w)).

(** The calls of [k] complete iterations of the loop body. *)
Fixpoint iterations (milliseconds : Z) (k : nat) : list Call :=
  match k with
  | O => []
  | S k' => iterations milliseconds k' ++ [blockDrv_callIsr; Task_delay milliseconds]
  end.

(** Statements the cycler still executes before it returns, once
    [cycleFlag] is false. *)
Definition distance (pc : CyclePc) : nat :=
  match pc with
  | at_lock_first => 4
  | at_read_first => 3
  | at_unlock_first c => if c then 8 else 2
  | at_while c => if c then 7 else 1
  | at_callIsr => 6
  | at_delay => 5
  | at_lock => 4
  | at_read => 3
  | at_unlock c => if c then 8 else 2
  | returned => 0
  end.

(** ** Reading the call log *)

(** *** Resources *)

Inductive Resource :=
| CmdSeqBuffer        (* the buffer of the command sequencer *)
| UplinkBufferPool.   (* the pool of the uplink buffer manager *)

Definition Resource_eqb (r r' : Resource) : bool :=
  match r, r' with
  | CmdSeqBuffer, CmdSeqBuffer => true
  | UplinkBufferPool, UplinkBufferPool => true
  | _, _ => false
  end.

(** A resource together with the allocator it was taken from. *)
Definition Handle : Type := Resource * Allocator.

Definition Handle_eqb (h h' : Handle) : bool :=
  Resource_eqb (fst h) (fst h') && String.eqb (snd h) (snd h').

(** The calls that acquire a resource. *)
Definition acquires (c : Call) : option Handle :=
  match c with
  | cmdSeq_allocateBuffer _ a _ => Some (CmdSeqBuffer, a)
  | fileUplinkBufferManager_setup _ _ a _ => Some (UplinkBufferPool, a)
  | _ => None
  end.

(** The calls that release one.  [deallocateBuffer] names the allocator
    the memory goes back to; [cleanup] takes no allocator, the buffer
    manager returns its memory to the allocator it was set up with. *)
Definition releases (c : Call) : option (Resource * option Allocator) :=
  match c with
  | cmdSeq_deallocateBuffer a => Some (CmdSeqBuffer, Some a)
  | fileUplinkBufferManager_cleanup => Some (UplinkBufferPool, None)
  | _ => None
  end.

Fixpoint collect {A B : Type} (f : A -> option B) (l : list A) : list B :=
  match l with
  | [] => []
  | a :: rest =>
      match f a with
      | Some b => b :: collect f rest
      | None => collect f rest
      end
  end.

Definition acquisitions (l : list Call) : list Handle := collect acquires l.

Definition acquire_order (l : list Call) : list Resource :=
  map fst (acquisitions l).

Definition release_order (l : list Call) : list Resource :=
  map fst (collect releases l).

(** The handles that are live, newest first. *)
Definition Ledger : Type := list Handle.

(** Take the first live handle of resource [r] (from allocator [a], when
    one is named) out of the ledger; [None] when there is none. *)
Fixpoint take_out (r : Resource) (a : option Allocator) (live : Ledger)
    : option (Handle * Ledger) :=
  match live with
  | [] => None
  | h :: rest =>
      if Resource_eqb (fst h) r &&
         match a with
         | Some a' => String.eqb (snd h) a'
         | None => true
         end
      then Some (h, rest)
      else
        match take_out r a rest with
        | Some (h', rest') => Some (h', h :: rest')
        | None => None
        end
  end.

(** Book the calls of a log: an acquisition adds a handle, a release
    takes one out.  The result is the releases resolved to handles, and
    the handles still live; [None] when a release finds no live handle
    (a second release, or a release to another allocator). *)
Fixpoint settle (l : list Call) (live : Ledger) : option (list Handle * Ledger) :=
  match l with
  | [] => Some ([], live)
  | c :: rest =>
      match acquires c, releases c with
      | Some h, _ => settle rest (h :: live)
      | None, Some (r, a) =>
          match take_out r a live with
          | Some (h, live') =>
              match settle rest live' with
              | Some (released, final) => Some (h :: released, final)
              | None => None
              end
          | None => None
          end
      | None, None => settle rest live
      end
  end.

Definition count_handle (h : Handle) (l : list Handle) : nat :=
  List.length (filter (Handle_eqb h) l).

(** *** Steps of the bring-up *)

(** The step of [setupTopology] a call belongs to: 1 construction and
    wiring, 2 configuration, 3 start of the tasks of the active
    components, 4 configuration of the socket client, 5 start of the
    socket task; 0 for a call that is not part of the bring-up. *)
Definition setup_step (c : Call) : nat :=
  match c with
  | initComponents _ | setBaseIds | connectComponents | regCommands => 1
  | cmdSeq_allocateBuffer _ _ _
  | rateGroupDriver_configure _ _
  | rateGroup1_configure _ _ | rateGroup2_configure _ _
  | rateGroup3_configure _ _
  | fileDownlink_configure _ _ _ _
  | prmDb_configure _ | prmDb_readParamFile
  | health_setPingEntries _ _ _
  | fileUplinkBufferManager_setup _ _ _ _
  | downlink_setup _ | uplink_setup _
  | gpioDriver_open _ _ | printf _ => 2
  | startTasks _ => 3
  | comm_configure _ _ => 4
  | comm_startSocketTask _ _ _ _ => 5
  | _ => 0
  end.

(** The component instances the file configures. *)
Inductive Component :=
| cmdSeq | rateGroupDriver | rateGroup1 | rateGroup2 | rateGroup3
| fileDownlink | prmDb | health | fileUplinkBufferManager
| downlink | uplink | gpioDriver | comm.

Definition Component_eqb (x y : Component) : bool :=
  match x, y with
  | cmdSeq, cmdSeq | rateGroupDriver, rateGroupDriver
  | rateGroup1, rateGroup1 | rateGroup2, rateGroup2 | rateGroup3, rateGroup3
  | fileDownlink, fileDownlink | prmDb, prmDb | health, health
  | fileUplinkBufferManager, fileUplinkBufferManager
  | downlink, downlink | uplink, uplink | gpioDriver, gpioDriver
  | comm, comm => true
  | _, _ => false
  end.

(** The component a call configures. *)
Definition configures (c : Call) : option Component :=
  match c with
  | cmdSeq_allocateBuffer _ _ _ => Some cmdSeq
  | rateGroupDriver_configure _ _ => Some rateGroupDriver
  | rateGroup1_configure _ _ => Some rateGroup1
  | rateGroup2_configure _ _ => Some rateGroup2
  | rateGroup3_configure _ _ => Some rateGroup3
  | fileDownlink_configure _ _ _ _ => Some fileDownlink
  | prmDb_configure _ | prmDb_readParamFile => Some prmDb
  | health_setPingEntries _ _ _ => Some health
  | fileUplinkBufferManager_setup _ _ _ _ => Some fileUplinkBufferManager
  | downlink_setup _ => Some downlink
  | uplink_setup _ => Some uplink
  | gpioDriver_open _ _ => Some gpioDriver
  | comm_configure _ _ => Some comm
  | _ => None
  end.

(** The components whose task a call may start.  [startTasks] is
    generated; it starts the tasks of the active components, which may be
    any of the instances above but [comm], whose socket task is started
    by [startSocketTask]. *)
Definition may_start (c : Call) (x : Component) : bool :=
  match c with
  | startTasks _ => negb (Component_eqb x comm)
  | comm_startSocketTask _ _ _ _ => Component_eqb x comm
  | _ => false
  end.

(** *** The calls of a bring-up, spelled out *)

Definition wiring_calls (state : TopologyState) : list Call :=
  [initComponents state; setBaseIds; connectComponents; regCommands].

Definition gpio_error_line : Call :=
  printf ("[ERROR] Failed to open GPIO pin" ++ LF)%string.

Definition configuration_calls (fw : FrameworkConstants) (w : World)
    : list Call :=
  [ cmdSeq_allocateBuffer 0 mallocator 5120;
    rateGroupDriver_configure (rateGroupDivisors w)
      (List.length (rateGroupDivisors w));
    rateGroup1_configure (rateGroup1Context w) (List.length (rateGroup1Context w));
    rateGroup2_configure (rateGroup2Context w) (List.length (rateGroup2Context w));
    rateGroup3_configure (rateGroup3Context w) (List.length (rateGroup3Context w));
    fileDownlink_configure 1000 1000 1000 10;
    prmDb_configure "PrmDb.dat";
    prmDb_readParamFile;
    health_setPingEntries (pingEntries w) (List.length (pingEntries w)) 291;
    fileUplinkBufferManager_setup 200 0 mallocator
      (set_first_bin {| bufferSize := 3000; numBuffers := 30 |} (zeroed_bins fw));
    downlink_setup framing;
    uplink_setup deframing;
    gpioDriver_open 13 GPIO_OUT ]
  ++ (if gpio_line w 13 GPIO_OUT then [] else [gpio_error_line]).

Definition network_calls (fw : FrameworkConstants) (state : TopologyState)
    : list Call :=
  match hostname state with
  | Some host =>
      if port state =? 0 then []
      else [ comm_configure host (port state);
             comm_startSocketTask "ReceiveTask" true 100 (STACK_SIZE fw) ]
  | None => []
  end.

Definition teardown_calls (state : TopologyState) : list Call :=
  [ stopTasks state; freeThreads state;
    comm_stopSocketTask; comm_joinSocketTask;
    cmdSeq_deallocateBuffer mallocator;
    fileUplinkBufferManager_cleanup ].

Definition is_startSocketTask (c : Call) : bool :=
  match c with
  | comm_startSocketTask _ _ _ _ => true
  | _ => false
  end.

Definition is_printf (c : Call) : bool :=
  match c with
  | printf _ => true
  | _ => false
  end.

Definition is_teardown_action (c : Call) : bool :=
  match c with
  | stopTasks _ | freeThreads _ | comm_stopSocketTask | comm_joinSocketTask
  | cmdSeq_deallocateBuffer _ | fileUplinkBufferManager_cleanup => true
  | _ => false
  end.

(** Has a bring-up run to its end in this log? *)
Definition setup_completed (l : list Call) : bool :=
  existsb (fun c => match c with startTasks _ => true | _ => false end) l.

(** [state.hostname] points to a string that is not empty. *)
Definition host_nonempty (state : TopologyState) : bool :=
  match hostname state with
  | Some host => negb (String.eqb host EmptyString)
  | None => false
  end.

(** A divisor sequence the specification calls malformed: empty, or with
    a divisor below 1. *)
Definition malformed_divisors (l : list Z) : bool :=
  match l with
  | [] => true
  | _ => existsb (fun d => d <? 1) l
  end.

(** ** Sample inputs for the concrete runs *)

Definition sample_constants : FrameworkConstants :=
  {| DIVIDER_SIZE := 3; CONNECTION_COUNT_MAX := 10;
     BUFFERMGR_MAX_NUM_BINS := 10; STACK_SIZE := 65536 |}.

Definition gpio_works : Z -> GpioDirection -> bool := fun _ _ => true.
Definition gpio_broken : Z -> GpioDirection -> bool := fun _ _ => false.

Definition fresh_world : World := initial_world sample_constants gpio_works.
Definition fresh_world_no_gpio : World := initial_world sample_constants gpio_broken.

Definition localhost_state : TopologyState :=
  {| hostname := Some "127.0.0.1"%string; port := 50000 |}.
Definition no_endpoint_state : TopologyState :=
  {| hostname := None; port := 0 |}.
Definition empty_host_state : TopologyState :=
  {| hostname := Some EmptyString; port := 50000 |}.

(** The world in which the global divisor array holds 1, 0, 4. *)
Definition world_with_zero_divisor : World :=
  with_rateGroupDivisors fresh_world [1; 0; 4].

(** ** The runs the properties speak about *)

(** The calls of a bring-up that starts in [w]. *)
Definition setup_trace (fw : FrameworkConstants) (state : TopologyState)
    (w : World) : list Call :=
  trace (setupTopology fw state) w.

(** The calls of the tear-down that follows that bring-up. *)
Definition teardown_trace (fw : FrameworkConstants) (state : TopologyState)
    (w : World) : list Call :=
  trace (teardownTopology state) (exec (setupTopology fw state) w).

Definition is_socket_call (c : Call) : bool :=
  match c with
  | comm_configure _ _ | comm_startSocketTask _ _ _ _
  | comm_stopSocketTask | comm_joinSocketTask => true
  | _ => false
  end.

(** ** Statements of the specification that are put to the test *)

(** The tear-down releases in the reverse of the order of acquisition. *)
Definition releases_in_reverse_order (fw : FrameworkConstants)
    (state : TopologyState) (w : World) : Prop :=
  release_order (teardown_trace fw state w)
  = rev (acquire_order (setup_trace fw state w)).

(** The socket task is started exactly when the host is a non-empty
    string and the port is not zero. *)
Definition socket_task_iff_host_nonempty (fw : FrameworkConstants)
    (state : TopologyState) (w : World) : Prop :=
  existsb is_startSocketTask (setup_trace fw state w) = true
  <-> (host_nonempty state = true /\ port state <> 0).

(** A tear-down that no bring-up precedes stops no task and releases
    nothing. *)
Definition teardown_guarded (state : TopologyState) (w : World) : Prop :=
  setup_completed (calls w) = false ->
  filter is_teardown_action (trace (teardownTopology state) w) = [].

(** A malformed divisor sequence does not reach the rate group driver. *)
Definition divisors_validated (fw : FrameworkConstants) (w : World) : Prop :=
  malformed_divisors (rateGroupDivisors w) = true ->
  ~ In (rateGroupDriver_configure (rateGroupDivisors w)
          (List.length (rateGroupDivisors w)))
       (trace (configureTopology fw) w).

(** ** Invariants of the threads *)

(** What the cycler has read and called when it stands at [pc] and has
    completed [k] iterations of the loop body. *)
Definition cycler_record (milliseconds : Z) (pc : CyclePc) (k : nat)
    : list bool * list Call :=
  match pc with
  | at_lock_first | at_read_first => ([], [])
  | at_unlock_first c | at_while c | at_unlock c =>
      (repeat true k ++ [c], iterations milliseconds k)
  | at_callIsr => (repeat true (S k), iterations milliseconds k)
  | at_delay =>
      (repeat true (S k), iterations milliseconds k ++ [blockDrv_callIsr])
  | at_lock | at_read => (repeat true k, iterations milliseconds k)
  | returned => (repeat true k ++ [false], iterations milliseconds k)
  end.

(** Tick callbacks the cycler may still make once [cycleFlag] is false. *)
Definition owed (pc : CyclePc) : nat :=
  match pc with
  | at_unlock_first c | at_while c | at_unlock c => if c then 1 else 0
  | at_callIsr => 1
  | _ => 0
  end.

(** The cycler is between [lock()] and [unLock()]. *)
Definition in_critical_section (pc : CyclePc) : bool :=
  match pc with
  | at_read_first | at_unlock_first _ | at_read | at_unlock _ => true
  | _ => false
  end.

(** The value the cycler has just read, while it still holds the mutex. *)
Definition just_read (pc : CyclePc) : option bool :=
  match pc with
  | at_unlock_first c | at_unlock c => Some c
  | _ => None
  end.

(** Thread [t] is between its [lock()] and its [unLock()]. *)
Definition inside (m : Machine) (t : Thread) : Prop :=
  match t with
  | Cycler => in_critical_section (cycler m) = true
  | Stopper i => stoppers m i <> stop_idle
  end.

(** The mutex is held by the thread that is inside its critical section
    and by no other, and what the cycler has read under the mutex is
    still the value of the flag. *)
Definition consistent (m : Machine) : Prop :=
  (forall t, inside m t -> cycleLock (world m) = Some t) /\
  (forall t, cycleLock (world m) = Some t -> inside m t) /\
  (forall c, just_read (cycler m) = Some c -> cycleFlag (world m) = c).

(** The reads and the calls of the cycler since it was booted on a log
    [before]. *)
Definition recorded (milliseconds : Z) (before : list Call) (m : Machine)
    : Prop :=
  exists k : nat,
    seen m = fst (cycler_record milliseconds (cycler m) k) /\
    calls (world m) = before ++ snd (cycler_record milliseconds (cycler m) k).

(** The threads after a schedule, [startSimulatedCycle] having been called
    in [w]. *)
Definition cycle_after (milliseconds : Z) (w : World) (schedule : list Thread)
    : Machine :=
  run milliseconds schedule (boot w).

(** ** Sample schedules for the concrete runs *)

(** The cycler runs one iteration and reads the flag again; a thread then
    calls [stopSimulatedCycle] and runs it to its end while the cycler
    stands before the loop test. *)
Definition schedule_until_stop : list Thread :=
  repeat Cycler 9 ++ [Stopper 0; Stopper 0; Stopper 0].

(** Then the cycler runs alone. *)
Definition schedule_after_stop : list Thread := repeat Cycler 7.

(** ** Compositions of the operations *)

(** [n] times a bring-up and the tear-down that follows it. *)
Fixpoint setup_teardown_rounds (fw : FrameworkConstants)
    (state : TopologyState) (n : nat) : M unit :=
  match n with
  | O => ret tt
  | S n' =>
      setupTopology fw state ;;
      teardownTopology state ;;
      setup_teardown_rounds fw state n'
  end.

(** The calls of one bring-up in [w], whatever was called before. *)
Definition one_setup (fw : FrameworkConstants) (state : TopologyState)
    (w : World) : list Call :=
  wiring_calls state ++ configuration_calls fw w ++
  [startTasks state] ++ network_calls fw state.

(** A bring-up and two tear-downs. *)
Definition setup_teardown_teardown (fw : FrameworkConstants)
    (state : TopologyState) : M unit :=
  setupTopology fw state ;;
  teardownTopology state ;;
  teardownTopology state.

(** Two bring-ups and one tear-down. *)
Definition setup_setup_teardown (fw : FrameworkConstants)
    (state : TopologyState) : M unit :=
  setupTopology fw state ;;
  setupTopology fw state ;;
  teardownTopology state.

(** [stopSimulatedCycle] by one thread, then [startSimulatedCycle] by
    another. *)
Definition stop_then_start (stopper self : Thread) (fuel : nat)
    (milliseconds : Z) : M bool :=
  stopSimulatedCycle stopper ;;
  startSimulatedCycle fuel self milliseconds.

Definition is_gpio_open (c : Call) : bool :=
  match c with
  | gpioDriver_open _ _ => true
  | _ => false
  end.


(** ** Two threads that alternate *)

(** The schedule in which the cycler and the thread [Stopper 0] take
    turns, [rounds] times, the stopping thread first or the cycler
    first.  The stopping thread calls [stopSimulatedCycle] again whenever
    it has left it. *)
Definition alternate (cycler_first : bool) (rounds : nat) : list Thread :=
  concat (repeat (if cycler_first then [Cycler; Stopper 0]
                  else [Stopper 0; Cycler]) rounds).

Definition cycler_or_first_stopper (t : Thread) : bool :=
  match t with
  | Cycler => true
  | Stopper i => Nat.eqb i 0
  end.

(** What the two threads see of the machine: where each stands, and the
    flag.  The mutex is held exactly when one of them is inside its
    critical section. *)
Record Core := {
  core_cycler : CyclePc;
  core_stopper : StopPc;
  core_flag : bool
}.

Definition abstraction (m : Machine) : Core :=
  {| core_cycler := cycler m;
     core_stopper := stoppers m 0;
     core_flag := cycleFlag (world m) |}.

Definition stopper_idle (pc : StopPc) : bool :=
  match pc with
  | stop_idle => true
  | _ => false
  end.

Definition core_free (c : Core) : bool :=
  negb (in_critical_section (core_cycler c)) && stopper_idle (core_stopper c).

(** The steps of [cycler_step] and [stopper_step] on what the two threads
    see. *)
Definition core_step (t : Thread) (c : Core) : Core :=
  let cycler_at pc :=
    {| core_cycler := pc; core_stopper := core_stopper c;
       core_flag := core_flag c |} in
  let stopper_at pc flag :=
    {| core_cycler := core_cycler c; core_stopper := pc; core_flag := flag |} in
  match t with
  | Cycler =>
      match core_cycler c with
      | at_lock_first => if core_free c then cycler_at at_read_first else c
      | at_read_first => cycler_at (at_unlock_first (core_flag c))
      | at_unlock_first b => cycler_at (at_while b)
      | at_while b => if b then cycler_at at_callIsr else cycler_at returned
      | at_callIsr => cycler_at at_delay
      | at_delay => cycler_at at_lock
      | at_lock => if core_free c then cycler_at at_read else c
      | at_read => cycler_at (at_unlock (core_flag c))
      | at_unlock b => cycler_at (at_while b)
      | returned => c
      end
  | Stopper _ =>
      match core_stopper c with
      | stop_idle =>
          if core_free c then stopper_at stop_at_write (core_flag c) else c
      | stop_at_write => stopper_at stop_at_unlock false
      | stop_at_unlock => stopper_at stop_idle (core_flag c)
      end
  end.

(** Is the step a tick callback? *)
Definition core_ticks_at (t : Thread) (c : Core) : nat :=
  match t, core_cycler c with
  | Cycler, at_callIsr => 1
  | _, _ => 0
  end.

(** The state after a schedule, and the number of tick callbacks made. *)
Fixpoint core_run (schedule : list Thread) (c : Core) : Core * nat :=
  match schedule with
  | [] => (c, 0%nat)
  | t :: rest =>
      let (c', n) := core_run rest (core_step t c) in
      (c', (core_ticks_at t c + n)%nat)
  end.

Definition all_cycler_pcs : list CyclePc :=
  [ at_lock_first; at_read_first; at_unlock_first true; at_unlock_first false;
    at_while true; at_while false; at_callIsr; at_delay; at_lock; at_read;
    at_unlock true; at_unlock false; returned ].

Definition all_cores : list Core :=
  flat_map (fun pc =>
    flat_map (fun s =>
      map (fun b => {| core_cycler := pc; core_stopper := s; core_flag := b |})
          [true; false])
      [stop_idle; stop_at_write; stop_at_unlock])
    all_cycler_pcs.

(** The cores of consistent machines: the two threads are not both inside
    their critical sections, and what the cycler has just read is the
    flag. *)
Definition core_consistent (c : Core) : bool :=
  negb (in_critical_section (core_cycler c) && negb (stopper_idle (core_stopper c)))
  && match just_read (core_cycler c) with
     | Some b => Bool.eqb b (core_flag c)
     | None => true
     end.

Definition is_returned (pc : CyclePc) : bool :=
  match pc with
  | returned => true
  | _ => false
  end.

(** After [rounds] rounds the cycler has returned, the flag is false and
    at most [bound] tick callbacks have been made. *)
Definition returns_within (cycler_first : bool) (rounds bound : nat) (c : Core)
    : bool :=
  let (c', n) := core_run (alternate cycler_first rounds) c in
  is_returned (core_cycler c') && negb (core_flag c') && (n <=? bound)%nat.

(** The machine is consistent and only the first stopping thread is ever
    inside [stopSimulatedCycle]. *)
Definition two_threads (m : Machine) : Prop :=
  consistent m /\ forall j : nat, j <> 0%nat -> stoppers m j = stop_idle.

(** The cycler has read [true] at its last read, has left the critical
    section and has not made the tick callback yet. *)
Definition past_the_test (pc : CyclePc) : bool :=
  match pc with
  | at_while true | at_callIsr => true
  | _ => false
  end.

(** ** Running the bring-up and the tear-down *)

Lemma skipn_length_app {A : Type} (l t : list A) :
  skipn (List.length l) (l ++ t) = t.
Proof. induction l as [|a l IH]; simpl; auto. Qed.

Lemma add_calls_nil (w : World) : add_calls w [] = w.
Proof. destruct w. unfold add_calls, with_calls. simpl. rewrite app_nil_r. reflexivity. Qed.

Lemma add_calls_add_calls (w : World) (l l' : list Call) :
  add_calls (add_calls w l) l' = add_calls w (l ++ l').
Proof. unfold add_calls, with_calls. simpl. rewrite app_assoc. reflexivity. Qed.

Lemma exec_bind {A B : Type} (m : M A) (k : A -> M B) (w : World) :
  exec (bind m k) w = exec (k (result m w)) (exec m w).
Proof. unfold exec, result, bind. destruct (m w); reflexivity. Qed.

Lemma logs_trace {A : Type} (m : M A) (w : World) (l : list Call) :
  logs m w l -> trace m w = l.
Proof.
  unfold logs, trace. intros ->. simpl. apply skipn_length_app.
Qed.

Lemma logs_cycleFlag {A : Type} (m : M A) (w : World) (l : list Call) :
  logs m w l -> cycleFlag (exec m w) = cycleFlag w.
Proof. unfold logs. intros ->. reflexivity. Qed.

Lemma logs_from_nil {A : Type} (m : M A) (w : World) (l : list Call) :
  logs_from m w [] l -> logs m w l.
Proof. unfold logs_from, logs. rewrite add_calls_nil. auto. Qed.

Lemma logs_from_ret {A : Type} (a : A) (w : World) (pre : list Call) :
  logs_from (ret a) w pre [].
Proof. unfold logs_from. rewrite app_nil_r. reflexivity. Qed.

Lemma exec_call (c : Call) (w : World) : exec (call c) w = add_calls w [c].
Proof. reflexivity. Qed.

Lemma logs_from_call (c : Call) (w : World) (pre : list Call) :
  logs_from (call c) w pre [c].
Proof. unfold logs_from. rewrite exec_call. apply add_calls_add_calls. Qed.

Lemma logs_from_bind {A B : Type} (m : M A) (k : A -> M B) (w : World)
    (pre l1 l2 : list Call) :
  logs_from m w pre l1 ->
  logs_from (k (result m (add_calls w pre))) w (pre ++ l1) l2 ->
  logs_from (bind m k) w pre (l1 ++ l2).
Proof.
  unfold logs_from. intros H1 H2.
  rewrite exec_bind, H1, H2, app_assoc. reflexivity.
Qed.

Lemma logs_from_call_then {B : Type} (c : Call) (k : unit -> M B) (w : World)
    (pre l : list Call) :
  logs_from (k tt) w (pre ++ [c]) l ->
  logs_from (bind (call c) k) w pre (c :: l).
Proof.
  intros H. apply (logs_from_bind (call c) k w pre [c] l).
  - apply logs_from_call.
  - exact H.
Qed.

Lemma logs_from_read_then {A B : Type} (field : World -> A) (k : A -> M B)
    (w : World) (pre l : list Call) :
  field (add_calls w pre) = field w ->
  logs_from (k (field w)) w pre l ->
  logs_from (bind (read field) k) w pre l.
Proof.
  unfold logs_from. intros F H.
  rewrite exec_bind.
  replace (exec (read field) (add_calls w pre)) with (add_calls w pre)
    by reflexivity.
  replace (result (read field) (add_calls w pre)) with (field (add_calls w pre))
    by reflexivity.
  rewrite F. exact H.
Qed.

Lemma logs_from_gpio_then {B : Type} (pin : Z) (direction : GpioDirection)
    (k : bool -> M B) (w : World) (pre l : list Call) :
  logs_from (k (gpio_line w pin direction)) w
            (pre ++ [gpioDriver_open pin direction]) l ->
  logs_from (bind (call_gpioDriver_open pin direction) k) w pre
            (gpioDriver_open pin direction :: l).
Proof.
  unfold logs_from. intros H.
  rewrite exec_bind.
  replace (exec (call_gpioDriver_open pin direction) (add_calls w pre))
    with (add_calls (add_calls w pre) [gpioDriver_open pin direction])
    by reflexivity.
  replace (result (call_gpioDriver_open pin direction) (add_calls w pre))
    with (gpio_line w pin direction) by reflexivity.
  rewrite add_calls_add_calls, H, <- app_assoc. reflexivity.
Qed.

(** Follow a sequence of calls and reads, one statement at a time. *)
Ltac follow_calls :=
  repeat lazymatch goal with
    | |- logs_from (ret _) _ _ _ => apply logs_from_ret
    | |- logs_from (call _) _ _ _ => apply logs_from_call
    | |- logs_from (bind (call _) _) _ _ _ => apply logs_from_call_then
    | |- logs_from (bind (read _) _) _ _ _ =>
        apply logs_from_read_then; [reflexivity|]
    | |- logs_from (bind (call_gpioDriver_open _ _) _) _ _ _ =>
        apply logs_from_gpio_then
    end.

Lemma configureTopology_logs_from (fw : FrameworkConstants) (w : World)
    (pre : list Call) :
  logs_from (configureTopology fw) w pre (configuration_calls fw w).
Proof.
  unfold configuration_calls, gpio_error_line, configureTopology.
  destruct (gpio_line w 13 GPIO_OUT) eqn:G; cbn [app]; follow_calls;
    rewrite G; unfold negb; follow_calls.
Qed.

Lemma configureTopology_logs (fw : FrameworkConstants) (w : World) :
  logs (configureTopology fw) w (configuration_calls fw w).
Proof. apply logs_from_nil, configureTopology_logs_from. Qed.

Lemma setupTopology_logs (fw : FrameworkConstants) (state : TopologyState)
    (w : World) :
  logs (setupTopology fw state) w
       (wiring_calls state ++ configuration_calls fw w ++
        [startTasks state] ++ network_calls fw state).
Proof.
  apply logs_from_nil.
  unfold wiring_calls, setupTopology. cbn [app].
  do 4 apply logs_from_call_then.
  apply logs_from_bind; [apply configureTopology_logs_from|].
  unfold network_calls.
  destruct (hostname state) as [host|]; [destruct (port state =? 0)|];
    cbn [app negb]; follow_calls.
Qed.

Lemma teardownTopology_logs (state : TopologyState) (w : World) :
  logs (teardownTopology state) w (teardown_calls state).
Proof.
  apply logs_from_nil. unfold teardownTopology, teardown_calls. follow_calls.
Qed.

Lemma setup_trace_eq (fw : FrameworkConstants) (state : TopologyState)
    (w : World) :
  setup_trace fw state w
  = wiring_calls state ++ configuration_calls fw w ++
    [startTasks state] ++ network_calls fw state.
Proof. apply logs_trace, setupTopology_logs. Qed.

Lemma teardown_trace_anywhere (state : TopologyState) (w : World) :
  trace (teardownTopology state) w = teardown_calls state.
Proof. apply logs_trace, teardownTopology_logs. Qed.

Lemma teardown_trace_eq (fw : FrameworkConstants) (state : TopologyState)
    (w : World) :
  teardown_trace fw state w = teardown_calls state.
Proof. apply teardown_trace_anywhere. Qed.

(** Case analysis on what a bring-up depends on: whether the GPIO line
    opens, and whether the state names an endpoint. *)
Ltac setup_cases fw state w :=
  rewrite ?setup_trace_eq, ?teardown_trace_eq;
  unfold configuration_calls, network_calls, wiring_calls, teardown_calls;
  destruct (gpio_line w 13 GPIO_OUT);
  (destruct (hostname state) as [?host|]; [destruct (port state =? 0)|]).

Lemma acquisitions_setup (fw : FrameworkConstants) (state : TopologyState)
    (w : World) :
  acquisitions (setup_trace fw state w)
  = [(CmdSeqBuffer, mallocator); (UplinkBufferPool, mallocator)].
Proof. setup_cases fw state w; reflexivity. Qed.

(** ** C1: order of the releases *)

(** C1, as stated, fails: for the bring-up with the sample constants and
    the endpoint 127.0.0.1:50000, the releases of the tear-down are not in
    the reverse of the order of acquisition. *)
Lemma teardown_not_in_reverse_order :
  ~ releases_in_reverse_order sample_constants localhost_state fresh_world.
Proof. unfold releases_in_reverse_order. vm_compute. discriminate. Qed.

(** C1, amended: the bring-up acquires the command-sequence buffer, then
    the uplink buffer pool; the tear-down that follows stops the tasks and
    the socket task first and then releases in that same order, the
    command-sequence buffer before the uplink buffer pool. *)
Theorem teardown_releases_in_acquisition_order
    (fw : FrameworkConstants) (state : TopologyState) (w : World) :
  acquire_order (setup_trace fw state w) = [CmdSeqBuffer; UplinkBufferPool] /\
  release_order (teardown_trace fw state w) = [CmdSeqBuffer; UplinkBufferPool] /\
  release_order (teardown_trace fw state w)
    = acquire_order (setup_trace fw state w) /\
  teardown_trace fw state w
    = [ stopTasks state; freeThreads state;
        comm_stopSocketTask; comm_joinSocketTask ]
      ++ [ cmdSeq_deallocateBuffer mallocator; fileUplinkBufferManager_cleanup ].
Proof.
  unfold acquire_order. rewrite acquisitions_setup, teardown_trace_eq.
  repeat split.
Qed.

(** ** C2: when the socket task is started *)

(** C2, as stated, fails: a state whose host is the empty string and whose
    port is 50000 starts the socket task. *)
Lemma empty_host_starts_socket_task :
  ~ socket_task_iff_host_nonempty sample_constants empty_host_state fresh_world.
Proof.
  unfold socket_task_iff_host_nonempty. intros [started _].
  assert (H : host_nonempty empty_host_state = true /\ port empty_host_state <> 0)
    by (apply started; vm_compute; reflexivity).
  destruct H as [H _]. vm_compute in H. discriminate.
Qed.

(** C2, amended: the bring-up starts the socket task if and only if the
    state's hostname is not the null pointer and its port is not zero; it
    then configures the socket client with that host and port and starts
    one task.  A state with a null hostname starts none, and the state
    127.0.0.1:50000 starts exactly one, bound to that endpoint. *)
Theorem socket_task_iff_hostname_and_port
    (fw : FrameworkConstants) (state : TopologyState) (w : World) :
  (existsb is_startSocketTask (setup_trace fw state w) = true
   <-> (hostname state <> None /\ port state <> 0)) /\
  filter is_socket_call (setup_trace fw state w)
    = match hostname state with
      | Some host =>
          if port state =? 0 then []
          else [ comm_configure host (port state);
                 comm_startSocketTask "ReceiveTask" true 100 (STACK_SIZE fw) ]
      | None => []
      end /\
  (forall p : Z,
      filter is_socket_call
        (setup_trace fw {| hostname := None; port := p |} w) = []) /\
  filter is_socket_call (setup_trace fw localhost_state w)
    = [ comm_configure "127.0.0.1" 50000;
        comm_startSocketTask "ReceiveTask" true 100 (STACK_SIZE fw) ].
Proof.
  split; [|split; [|split]].
  - rewrite setup_trace_eq.
    unfold configuration_calls, network_calls, wiring_calls.
    destruct (gpio_line w 13 GPIO_OUT);
      (destruct (hostname state) as [host|];
       [destruct (port state =? 0) eqn:P|]); simpl; split;
      try discriminate; try (intros [H1 H2]; congruence);
      try (apply Z.eqb_eq in P; intros [_ H]; contradiction);
      try (apply Z.eqb_neq in P; intros _; split; [discriminate|assumption]);
      try (intros _; reflexivity).
  - setup_cases fw state w; reflexivity.
  - intros p. rewrite setup_trace_eq.
    unfold configuration_calls, network_calls, wiring_calls.
    destruct (gpio_line w 13 GPIO_OUT); reflexivity.
  - rewrite setup_trace_eq.
    unfold configuration_calls, network_calls, wiring_calls.
    destruct (gpio_line w 13 GPIO_OUT); reflexivity.
Qed.

(** ** C3: order of the steps of the bring-up *)

Lemma sorted_steps_monotone (l : list Call) :
  StronglySorted le (map setup_step l) ->
  forall (i j : nat) (a b : Call),
    nth_error l i = Some a -> nth_error l j = Some b ->
    (i <= j)%nat -> (setup_step a <= setup_step b)%nat.
Proof.
  induction l as [|c l IH]; simpl; intros SS i j a b Hi Hj Hij.
  - destruct i; discriminate.
  - apply StronglySorted_inv in SS. destruct SS as [SS Hc].
    destruct i as [|i]; destruct j as [|j]; simpl in *.
    + injection Hi as <-. injection Hj as <-. lia.
    + injection Hi as <-.
      rewrite Forall_forall in Hc. apply Hc.
      apply in_map. eapply nth_error_In; eassumption.
    + lia.
    + apply (IH SS i j); auto. lia.
Qed.

Lemma sorted_steps_order (l : list Call) :
  StronglySorted le (map setup_step l) ->
  forall (i j : nat) (a b : Call),
    nth_error l i = Some a -> nth_error l j = Some b ->
    (setup_step a < setup_step b)%nat -> (i < j)%nat.
Proof.
  intros SS i j a b Hi Hj Hlt.
  destruct (Nat.lt_ge_cases i j) as [|Hge]; [assumption|].
  pose proof (sorted_steps_monotone l SS j i b a Hj Hi Hge). lia.
Qed.

Lemma configured_before_started (a b : Call) (x : Component) :
  may_start a x = true -> configures b = Some x ->
  (setup_step b < setup_step a)%nat.
Proof.
  destruct a; simpl; try discriminate; intros Hs Hc;
    destruct b; simpl in *; try discriminate; try lia;
    injection Hc as <-; discriminate.
Qed.

Lemma configures_is_late (b : Call) (x : Component) :
  configures b = Some x -> (2 <= setup_step b)%nat.
Proof. destruct b; simpl; try discriminate; intros _; lia. Qed.

Lemma setup_steps_sorted (fw : FrameworkConstants) (state : TopologyState)
    (w : World) :
  StronglySorted le (map setup_step (setup_trace fw state w)).
Proof.
  setup_cases fw state w; simpl;
    repeat (constructor; [|repeat (constructor; try lia)]); constructor.
Qed.

(** C3: the calls of a bring-up are the four wiring calls, then the calls
    of [configureTopology], then [startTasks], then, for a state with an
    endpoint, the configuration and the start of the socket task.  Every
    call belongs to one of these steps and the steps never go back.
    Hence a call that configures a component comes after every wiring
    call, and before every call that may start a task of that
    component. *)
Theorem setup_steps_in_order
    (fw : FrameworkConstants) (state : TopologyState) (w : World) :
  setup_trace fw state w
    = [initComponents state; setBaseIds; connectComponents; regCommands]
      ++ trace (configureTopology fw) w
      ++ [startTasks state]
      ++ network_calls fw state /\
  Forall (fun c => setup_step c = 2%nat) (trace (configureTopology fw) w) /\
  Forall (fun c => (4 <= setup_step c)%nat) (network_calls fw state) /\
  StronglySorted le (map setup_step (setup_trace fw state w)) /\
  (forall (i j : nat) (a b : Call) (x : Component),
      nth_error (setup_trace fw state w) i = Some a ->
      nth_error (setup_trace fw state w) j = Some b ->
      configures a = Some x -> may_start b x = true -> (i < j)%nat) /\
  (forall (i j : nat) (a b : Call) (x : Component),
      nth_error (setup_trace fw state w) i = Some a ->
      nth_error (setup_trace fw state w) j = Some b ->
      setup_step a = 1%nat -> configures b = Some x -> (i < j)%nat).
Proof.
  pose proof (setup_steps_sorted fw state w) as SS.
  repeat split.
  - rewrite setup_trace_eq.
    rewrite (logs_trace _ _ _ (configureTopology_logs fw w)). reflexivity.
  - rewrite (logs_trace _ _ _ (configureTopology_logs fw w)).
    unfold configuration_calls.
    destruct (gpio_line w 13 GPIO_OUT); simpl; repeat constructor.
  - unfold network_calls.
    destruct (hostname state); [destruct (port state =? 0)|]; simpl;
      repeat constructor.
  - exact SS.
  - intros i j a b x Hi Hj Hc Hs.
    apply (sorted_steps_order _ SS i j a b Hi Hj).
    apply (configured_before_started b a x); assumption.
  - intros i j a b x Hi Hj Ha Hc.
    apply (sorted_steps_order _ SS i j a b Hi Hj).
    pose proof (configures_is_late b x Hc). lia.
Qed.

(** An instance: the socket client is configured at position 18 and its
    task is started at position 19, after [startTasks] at position 17. *)
Lemma setup_steps_in_order_run :
  nth_error (setup_trace sample_constants localhost_state fresh_world) 17
    = Some (startTasks localhost_state) /\
  (18 < 19)%nat.
Proof.
  split; [reflexivity|].
  apply (proj1 (proj2 (proj2 (proj2 (proj2
           (setup_steps_in_order sample_constants localhost_state fresh_world)))))
         18%nat 19%nat
         (comm_configure "127.0.0.1" 50000)
         (comm_startSocketTask "ReceiveTask" true 100 65536) comm);
    reflexivity.
Defined.

(** ** C4: every handle is released once, to its allocator *)

Lemma settle_setup_teardown (fw : FrameworkConstants) (state : TopologyState)
    (w : World) :
  settle (setup_trace fw state w ++ teardown_trace fw state w) []
  = Some ([(CmdSeqBuffer, mallocator); (UplinkBufferPool, mallocator)], []).
Proof. setup_cases fw state w; reflexivity. Qed.

(** C4: a bring-up acquires two handles, the command-sequence buffer and
    the uplink buffer pool, both from [mallocator], and releases nothing;
    the tear-down that follows acquires nothing and makes one release call
    for each of the two.  Booked against the acquisitions, every release
    finds its handle live at the allocator it goes to, each handle is
    released exactly once, and no handle stays live. *)
Theorem setup_teardown_release_each_handle_once
    (fw : FrameworkConstants) (state : TopologyState) (w : World) :
  acquisitions (setup_trace fw state w)
    = [(CmdSeqBuffer, mallocator); (UplinkBufferPool, mallocator)] /\
  collect releases (setup_trace fw state w) = [] /\
  acquisitions (teardown_trace fw state w) = [] /\
  collect releases (teardown_trace fw state w)
    = [(CmdSeqBuffer, Some mallocator); (UplinkBufferPool, None)] /\
  exists released : list Handle,
    settle (setup_trace fw state w ++ teardown_trace fw state w) []
      = Some (released, []) /\
    (forall h : Handle,
        In h (acquisitions (setup_trace fw state w)) ->
        count_handle h released = 1%nat) /\
    (forall h : Handle,
        In h released -> In h (acquisitions (setup_trace fw state w))).
Proof.
  split; [apply acquisitions_setup|].
  split; [setup_cases fw state w; reflexivity|].
  split; [rewrite teardown_trace_eq; reflexivity|].
  split; [rewrite teardown_trace_eq; reflexivity|].
  exists [(CmdSeqBuffer, mallocator); (UplinkBufferPool, mallocator)].
  split; [apply settle_setup_teardown|].
  rewrite acquisitions_setup. split.
  - intros h [<-|[<-|[]]]; reflexivity.
  - auto.
Qed.

(** The booking is not vacuous: a second tear-down finds no live handle,
    and so does a release to another allocator. *)
Lemma second_teardown_finds_no_handle :
  settle (setup_trace sample_constants localhost_state fresh_world
          ++ teardown_calls localhost_state ++ teardown_calls localhost_state) []
  = None.
Proof. reflexivity. Qed.

Lemma release_to_other_allocator_finds_no_handle :
  settle (setup_trace sample_constants localhost_state fresh_world
          ++ [cmdSeq_deallocateBuffer "other"%string]) []
  = None.
Proof. reflexivity. Qed.

(** ** C5: tear-down without bring-up *)

(** C5, as stated, fails: in the state of process start, where no
    bring-up has run, the tear-down does stop tasks and release. *)
Lemma teardown_without_setup_proceeds :
  ~ teardown_guarded localhost_state fresh_world.
Proof.
  unfold teardown_guarded. intros H.
  specialize (H eq_refl). vm_compute in H. discriminate.
Qed.

(** C5, amended: [teardownTopology] has no guard and no error result.
    Whatever has been called before, it makes the same six calls: it stops
    the tasks, frees the threads, stops and joins the socket task,
    deallocates the command-sequence buffer and cleans up the uplink
    buffer manager; it prints nothing and leaves the globals alone. *)
Theorem teardown_runs_unguarded (state : TopologyState) (w : World) :
  trace (teardownTopology state) w
    = [ stopTasks state; freeThreads state;
        comm_stopSocketTask; comm_joinSocketTask;
        cmdSeq_deallocateBuffer mallocator;
        fileUplinkBufferManager_cleanup ] /\
  filter is_teardown_action (trace (teardownTopology state) w)
    = trace (teardownTopology state) w /\
  filter is_printf (trace (teardownTopology state) w) = [] /\
  exec (teardownTopology state) w
    = with_calls w (calls w ++ trace (teardownTopology state) w).
Proof.
  rewrite teardown_trace_anywhere. repeat split.
  apply teardownTopology_logs.
Qed.

(** ** C6: the rate divisors *)

Lemma aggregate_padded (n : nat) (init : list Z) :
  (List.length init <= n)%nat ->
  aggregate n init = init ++ repeat 0 (n - List.length init).
Proof.
  intros H. unfold aggregate. apply firstn_all2.
  rewrite length_app, repeat_length. lia.
Qed.

(** C6, as stated, fails: with the divisor array holding 1, 0, 4 the
    sequence is handed to the rate group driver all the same. *)
Lemma zero_divisor_reaches_driver :
  ~ divisors_validated sample_constants world_with_zero_divisor.
Proof.
  unfold divisors_validated. intros H.
  apply H; [reflexivity|].
  vm_compute. right; left; reflexivity.
Qed.

(** C6, amended: [configureTopology] checks nothing about the divisors.
    It hands the global divisor array, whatever it holds, and the number
    of its elements to the rate group driver, and goes on with the calls
    that follow.  As initialised the array holds 1, 2, 4 and then zeros
    up to [DIVIDER_SIZE] elements, so for [DIVIDER_SIZE = 3] the driver is
    given [1, 2, 4], a sequence that is not empty and has no divisor
    below 1. *)
Theorem configureTopology_hands_divisors_unchecked
    (fw : FrameworkConstants) (gpio : Z -> GpioDirection -> bool) (w : World) :
  (3 <= DIVIDER_SIZE fw)%nat ->
  trace (configureTopology fw) w = configuration_calls fw w /\
  nth_error (trace (configureTopology fw) w) 1
    = Some (rateGroupDriver_configure (rateGroupDivisors w)
              (List.length (rateGroupDivisors w))) /\
  (13 <= List.length (trace (configureTopology fw) w))%nat /\
  rateGroupDivisors (initial_world fw gpio)
    = [1; 2; 4] ++ repeat 0 (DIVIDER_SIZE fw - 3) /\
  List.length (rateGroupDivisors (initial_world fw gpio)) = DIVIDER_SIZE fw /\
  (DIVIDER_SIZE fw = 3%nat ->
   nth_error (trace (configureTopology fw) (initial_world fw gpio)) 1
     = Some (rateGroupDriver_configure [1; 2; 4] 3) /\
   malformed_divisors [1; 2; 4] = false).
Proof.
  intros Hsize.
  assert (Hinit : rateGroupDivisors (initial_world fw gpio)
                  = [1; 2; 4] ++ repeat 0 (DIVIDER_SIZE fw - 3)).
  { simpl rateGroupDivisors. rewrite aggregate_padded; simpl; auto. }
  rewrite (logs_trace _ _ _ (configureTopology_logs fw w)).
  split; [reflexivity|]. split; [reflexivity|].
  split; [unfold configuration_calls; rewrite length_app; simpl; lia|].
  split; [exact Hinit|].
  split.
  - rewrite Hinit, length_app, repeat_length. simpl. lia.
  - intros H3.
    rewrite (logs_trace _ _ _ (configureTopology_logs fw (initial_world fw gpio))).
    unfold configuration_calls. rewrite Hinit, H3. simpl. split; reflexivity.
Qed.

(** An instance: the array holds 1, 0, 4 and that is what the driver is
    given. *)
Lemma configureTopology_hands_divisors_unchecked_run :
  (3 <= DIVIDER_SIZE sample_constants)%nat /\
  nth_error (trace (configureTopology sample_constants) world_with_zero_divisor) 1
    = Some (rateGroupDriver_configure [1; 0; 4] 3).
Proof.
  split; [vm_compute; lia|].
  apply (proj1 (proj2 (configureTopology_hands_divisors_unchecked
                         sample_constants gpio_works world_with_zero_divisor
                         (le_n 3)))).
Defined.

(** ** C7: the GPIO line does not open *)

(** C7: when the GPIO line does not open, the bring-up makes the calls it
    makes when the line opens and one more: one [printf] of an error
    line, right after the attempt to open the line.  [startTasks] and, for
    a state with an endpoint, the start of the socket task follow as
    usual. *)
Theorem gpio_failure_does_not_abort_setup
    (fw : FrameworkConstants) (state : TopologyState) (w : World) :
  gpio_line w 13 GPIO_OUT = false ->
  setup_trace fw state w
    = wiring_calls state
      ++ configuration_calls fw (with_gpio_line w gpio_works)
      ++ [printf ("[ERROR] Failed to open GPIO pin" ++ LF)%string]
      ++ [startTasks state]
      ++ network_calls fw state /\
  filter is_printf (setup_trace fw state w)
    = [printf ("[ERROR] Failed to open GPIO pin" ++ LF)%string] /\
  filter (fun c => negb (is_printf c)) (setup_trace fw state w)
    = setup_trace fw state (with_gpio_line w gpio_works) /\
  In (startTasks state) (setup_trace fw state w) /\
  filter is_socket_call (setup_trace fw state w) = network_calls fw state.
Proof.
  intros Hgpio.
  rewrite !setup_trace_eq.
  unfold configuration_calls, network_calls, wiring_calls.
  rewrite Hgpio. simpl gpio_line. unfold gpio_works.
  destruct (hostname state) as [host|]; [destruct (port state =? 0)|];
    simpl; repeat split; auto 30.
Qed.

(** An instance: the bring-up for 127.0.0.1:50000 with a GPIO line that
    does not open prints the error line once. *)
Lemma gpio_failure_does_not_abort_setup_run :
  gpio_line fresh_world_no_gpio 13 GPIO_OUT = false /\
  filter is_printf (setup_trace sample_constants localhost_state fresh_world_no_gpio)
    = [printf ("[ERROR] Failed to open GPIO pin" ++ LF)%string].
Proof.
  split; [reflexivity|].
  apply (proj1 (proj2 (gpio_failure_does_not_abort_setup
                         sample_constants localhost_state fresh_world_no_gpio
                         eq_refl))).
Defined.

(** ** C10: the socket task in the tear-down *)

(** C10: the tear-down stops and joins the socket task whatever the state
    and whatever came before; this holds too after the bring-up of a
    state without endpoint (null hostname or port zero), which has
    neither configured the socket client nor started its task. *)
Theorem teardown_stops_socket_task_unconditionally
    (fw : FrameworkConstants) (state : TopologyState) (w : World) :
  filter is_socket_call (trace (teardownTopology state) w)
    = [comm_stopSocketTask; comm_joinSocketTask] /\
  filter is_socket_call (teardown_trace fw state w)
    = [comm_stopSocketTask; comm_joinSocketTask] /\
  (has_endpoint state = false ->
   filter is_socket_call (setup_trace fw state w) = []) /\
  (has_endpoint state = true ->
   exists host : string,
     hostname state = Some host /\
     filter is_socket_call (setup_trace fw state w)
       = [ comm_configure host (port state);
           comm_startSocketTask "ReceiveTask" true 100 (STACK_SIZE fw) ]).
Proof.
  rewrite teardown_trace_eq, teardown_trace_anywhere.
  split; [reflexivity|]. split; [reflexivity|].
  unfold has_endpoint. split; intros H.
  - setup_cases fw state w; simpl in H; try discriminate; reflexivity.
  - setup_cases fw state w; simpl in H; try discriminate;
      eexists; split; reflexivity.
Qed.

(** An instance: for the state without endpoint the bring-up makes no
    call to the socket client, the tear-down stops and joins its task. *)
Lemma teardown_stops_socket_task_unconditionally_run :
  has_endpoint no_endpoint_state = false /\
  filter is_socket_call (setup_trace sample_constants no_endpoint_state fresh_world)
    = [] /\
  filter is_socket_call (teardown_trace sample_constants no_endpoint_state fresh_world)
    = [comm_stopSocketTask; comm_joinSocketTask].
Proof.
  split; [reflexivity|]. split.
  - apply (proj1 (proj2 (proj2 (teardown_stops_socket_task_unconditionally
                                  sample_constants no_endpoint_state fresh_world)))).
    reflexivity.
  - apply (proj1 (proj2 (teardown_stops_socket_task_unconditionally
                           sample_constants no_endpoint_state fresh_world))).
Defined.

(** ** The simulated cycle: the threads *)

(** A property that every step keeps holds after every schedule. *)
Lemma run_invariant (P : Machine -> Prop) (ms : Z) :
  (forall t m, P m -> P (step ms t m)) ->
  forall s m, P m -> P (run ms s m).
Proof.
  intros Hstep s. induction s as [|t s IH]; intros m Hm; simpl; auto.
Qed.

Lemma ticks_call (c : Call) (w : World) :
  ticks (exec (call c) w)
  = (ticks w + if is_callIsr c then 1 else 0)%nat.
Proof.
  unfold ticks, exec, call. simpl. rewrite filter_app, length_app. simpl.
  destruct (is_callIsr c); simpl; lia.
Qed.

(** The flag never goes from false to true. *)
Lemma step_flag_stays_false (ms : Z) (t : Thread) (m : Machine) :
  cycleFlag (world m) = false -> cycleFlag (world (step ms t m)) = false.
Proof.
  destruct m as [w pc sn st]. simpl. intros H.
  destruct t as [|i]; simpl.
  - unfold cycler_step; simpl.
    destruct pc as [| |c|c| | | | |c|]; simpl;
      try destruct (mutex_free w); try destruct c; simpl; auto.
  - unfold stopper_step; simpl.
    destruct (st i); simpl; try destruct (mutex_free w); simpl; auto.
Qed.

Lemma run_flag_stays_false (ms : Z) (s : list Thread) (m : Machine) :
  cycleFlag (world m) = false -> cycleFlag (world (run ms s m)) = false.
Proof.
  apply (run_invariant (fun m => cycleFlag (world m) = false)).
  intros t m'. apply step_flag_stays_false.
Qed.

(** Once the flag is false the cycler makes the tick callbacks it owes and
    no more. *)
Lemma step_owed (ms : Z) (t : Thread) (m : Machine) :
  cycleFlag (world m) = false ->
  (ticks (world (step ms t m)) + owed (cycler (step ms t m))
   <= ticks (world m) + owed (cycler m))%nat.
Proof.
  destruct m as [w pc sn st]. simpl. intros H.
  destruct t as [|i]; simpl.
  - unfold cycler_step; simpl.
    destruct pc as [| |c|c| | | | |c|]; simpl;
      try destruct (mutex_free w); try destruct c; simpl;
      rewrite ?H, ?ticks_call; simpl; try lia; unfold ticks; simpl; lia.
  - unfold stopper_step; simpl.
    destruct (st i); simpl; try destruct (mutex_free w); simpl;
      unfold ticks; simpl; lia.
Qed.

Lemma run_owed (ms : Z) (s : list Thread) (m : Machine) :
  cycleFlag (world m) = false ->
  (ticks (world (run ms s m)) + owed (cycler (run ms s m))
   <= ticks (world m) + owed (cycler m))%nat.
Proof.
  revert m. induction s as [|t s IH]; intros m H; simpl; [lia|].
  pose proof (step_owed ms t m H).
  pose proof (IH (step ms t m) (step_flag_stays_false ms t m H)).
  fold (run ms s (step ms t m)). lia.
Qed.

Lemma owed_at_most_one (pc : CyclePc) : (owed pc <= 1)%nat.
Proof. destruct pc as [| |c|c| | | | |c|]; try destruct c; simpl; lia. Qed.

(** Once the flag is false every statement the cycler executes brings it
    one statement closer to its return. *)
Lemma step_distance (ms : Z) (t : Thread) (m : Machine) :
  cycleFlag (world m) = false ->
  (distance (cycler (step ms t m)) + cycler_moves ms [t] m
   = distance (cycler m))%nat.
Proof.
  destruct m as [w pc sn st]. simpl. intros H.
  destruct t as [|i]; simpl.
  - unfold cycler_step, cycler_enabled; simpl.
    destruct pc as [| |c|c| | | | |c|]; simpl;
      try destruct (mutex_free w); try destruct c; simpl;
      rewrite ?H; simpl; lia.
  - unfold stopper_step; simpl.
    destruct (st i); simpl; try destruct (mutex_free w); simpl; lia.
Qed.

Lemma run_distance (ms : Z) (s : list Thread) (m : Machine) :
  cycleFlag (world m) = false ->
  (distance (cycler (run ms s m)) + cycler_moves ms s m
   = distance (cycler m))%nat.
Proof.
  revert m. induction s as [|t s IH]; intros m H; simpl; [lia|].
  pose proof (step_distance ms t m H) as Hd. simpl in Hd.
  pose proof (IH (step ms t m) (step_flag_stays_false ms t m H)).
  fold (run ms s (step ms t m)). lia.
Qed.

Lemma distance_at_most_eight (pc : CyclePc) : (distance pc <= 8)%nat.
Proof. destruct pc as [| |c|c| | | | |c|]; try destruct c; simpl; lia. Qed.

Lemma distance_zero (pc : CyclePc) : distance pc = 0%nat -> pc = returned.
Proof.
  destruct pc as [| |c|c| | | | |c|]; try destruct c; simpl;
    try discriminate; reflexivity.
Qed.

Lemma just_read_in_critical_section (pc : CyclePc) (c : bool) :
  just_read pc = Some c -> in_critical_section pc = true.
Proof. destruct pc; simpl; try discriminate; reflexivity. Qed.

Lemma mutex_free_true (w : World) : mutex_free w = true -> cycleLock w = None.
Proof. unfold mutex_free. destruct (cycleLock w); [discriminate|reflexivity]. Qed.

Lemma set_stopper_same (i : nat) (pc : StopPc) (f : nat -> StopPc) :
  set_stopper i pc f i = pc.
Proof. unfold set_stopper. rewrite Nat.eqb_refl. reflexivity. Qed.

Lemma cycler_step_consistent (ms : Z) (m : Machine) :
  consistent m -> consistent (cycler_step ms m).
Proof.
  destruct m as [w pc sn st]. unfold consistent, cycler_step. simpl.
  intros (K1 & K2 & K3).
  assert (S1 : forall i, st i <> stop_idle -> cycleLock w = Some (Stopper i))
    by (intros i; apply (K1 (Stopper i))).
  assert (C1 : in_critical_section pc = true -> cycleLock w = Some Cycler)
    by (apply (K1 Cycler)).
  assert (S2 : forall i, cycleLock w = Some (Stopper i) -> st i <> stop_idle)
    by (intros i; apply (K2 (Stopper i))).
  assert (C2 : cycleLock w = Some Cycler -> in_critical_section pc = true)
    by (apply (K2 Cycler)).
  clear K1 K2.
  destruct pc as [| |c|c| | | | |c|]; simpl in *;
    try (destruct (mutex_free w) eqn:Free;
         [apply mutex_free_true in Free|]);
    try destruct c; simpl;
    (split; [|split]);
    try (intros [|i] H; simpl in *);
    try (intros [|i] [= E]; simpl in *);
    try (intros c' [= <-]);
    try reflexivity; try discriminate; try congruence; auto;
    try (specialize (S1 i H); specialize (C1 eq_refl); congruence);
    try (specialize (S1 i H); congruence);
    try (specialize (C2 H); discriminate).
Qed.

Lemma stopper_step_consistent (i : nat) (m : Machine) :
  consistent m -> consistent (stopper_step i m).
Proof.
  destruct m as [w pc sn st]. unfold consistent, stopper_step. simpl.
  intros (K1 & K2 & K3).
  assert (S1 : forall j, st j <> stop_idle -> cycleLock w = Some (Stopper j))
    by (intros j; apply (K1 (Stopper j))).
  assert (C1 : in_critical_section pc = true -> cycleLock w = Some Cycler)
    by (apply (K1 Cycler)).
  assert (S2 : forall j, cycleLock w = Some (Stopper j) -> st j <> stop_idle)
    by (intros j; apply (K2 (Stopper j))).
  assert (C2 : cycleLock w = Some Cycler -> in_critical_section pc = true)
    by (apply (K2 Cycler)).
  destruct (st i) eqn:Si; simpl.
  - destruct (mutex_free w) eqn:Free; simpl; [|tauto].
    apply mutex_free_true in Free. split; [|split].
    + intros [|j]; simpl.
      * intros C. specialize (C1 C). congruence.
      * unfold set_stopper. destruct (Nat.eqb j i) eqn:E.
        -- apply Nat.eqb_eq in E. subst j. reflexivity.
        -- intros Hj. specialize (S1 j Hj). congruence.
    + intros [|j] [= E]; simpl. subst j.
      rewrite set_stopper_same. discriminate.
    + exact K3.
  - assert (Own : cycleLock w = Some (Stopper i))
      by (apply S1; rewrite Si; discriminate).
    split; [|split].
    + intros [|j]; simpl.
      * exact C1.
      * unfold set_stopper. destruct (Nat.eqb j i) eqn:E.
        -- apply Nat.eqb_eq in E. subst j. intros _. exact Own.
        -- apply S1.
    + intros [|j] E; simpl.
      * congruence.
      * assert (j = i) by congruence. subst j.
        rewrite set_stopper_same. discriminate.
    + intros c Hc. apply just_read_in_critical_section in Hc.
      specialize (C1 Hc). congruence.
  - assert (Own : cycleLock w = Some (Stopper i))
      by (apply S1; rewrite Si; discriminate).
    split; [|split].
    + intros [|j]; simpl.
      * intros C. specialize (C1 C). congruence.
      * unfold set_stopper. destruct (Nat.eqb j i) eqn:E.
        -- intros Hj. contradiction Hj. reflexivity.
        -- intros Hj. specialize (S1 j Hj). apply Nat.eqb_neq in E. congruence.
    + intros t [=].
    + exact K3.
Qed.

Lemma step_consistent (ms : Z) (t : Thread) (m : Machine) :
  consistent m -> consistent (step ms t m).
Proof.
  destruct t; [apply cycler_step_consistent|apply stopper_step_consistent].
Qed.

Lemma boot_consistent (w : World) : cycleLock w = None -> consistent (boot w).
Proof.
  intros H. unfold consistent, boot. simpl. split; [|split].
  - intros [|i]; simpl; [discriminate|]. intros Hi. contradiction Hi. reflexivity.
  - intros t E. congruence.
  - discriminate.
Qed.

(** No deadlock: a cycler that has not returned can move, or the mutex is
    held by a thread inside [stopSimulatedCycle], whose next statement is
    the write or the unlock and needs nothing. *)
Lemma cycler_moves_or_stopper_moves (m : Machine) :
  consistent m -> cycler m <> returned ->
  cycler_enabled m = true \/
  exists i : nat,
    cycleLock (world m) = Some (Stopper i) /\ stoppers m i <> stop_idle.
Proof.
  destruct m as [w pc sn st]. unfold consistent, cycler_enabled. simpl.
  intros (K1 & K2 & _) NotRet.
  destruct pc as [| |c|c| | | | |c|]; auto; try contradiction;
    unfold mutex_free; destruct (cycleLock w) as [[|i]|] eqn:L; auto;
    try (specialize (K2 Cycler eq_refl); simpl in K2; discriminate);
    right; exists i; split; auto; apply (K2 (Stopper i) eq_refl).
Qed.

Lemma repeat_true_snoc (k : nat) : repeat true k ++ [true] = true :: repeat true k.
Proof. symmetry. apply repeat_cons. Qed.

Lemma step_recorded (ms : Z) (before : list Call) (t : Thread) (m : Machine) :
  recorded ms before m -> recorded ms before (step ms t m).
Proof.
  destruct m as [w pc sn st]. unfold recorded. simpl.
  intros (k & Hs & Hc).
  destruct t as [|i]; simpl.
  - unfold cycler_step; simpl.
    destruct pc as [| |c|c| | | | |c|]; simpl in *.
    + destruct (mutex_free w); simpl; exists k; auto.
    + exists 0%nat. subst sn. simpl. rewrite Hc. auto.
    + exists k. auto.
    + destruct c; simpl; exists k; split; auto.
      rewrite Hs. apply repeat_true_snoc.
    + exists k. split; auto. rewrite Hc, <- app_assoc. reflexivity.
    + exists (S k). split; auto. simpl.
      rewrite Hc, <- !app_assoc. reflexivity.
    + destruct (mutex_free w); simpl; exists k; auto.
    + exists k. rewrite Hs. auto.
    + exists k. auto.
    + exists k. auto.
  - unfold stopper_step; simpl.
    destruct (st i); simpl; try destruct (mutex_free w); simpl; exists k; auto.
Qed.

Lemma boot_recorded (ms : Z) (w : World) : recorded ms (calls w) (boot w).
Proof. exists 0%nat. simpl. rewrite app_nil_r. auto. Qed.

(** A value [false] that the cycler has read is the value of the flag
    from then on. *)
Lemma step_seen_false (ms : Z) (t : Thread) (m : Machine) :
  (In false (seen m) -> cycleFlag (world m) = false) ->
  In false (seen (step ms t m)) -> cycleFlag (world (step ms t m)) = false.
Proof.
  destruct m as [w pc sn st]. simpl. intros J.
  destruct t as [|i]; simpl.
  - unfold cycler_step; simpl.
    destruct pc as [| |c|c| | | | |c|]; simpl;
      try destruct (mutex_free w); try destruct c; simpl; auto;
      intros H; apply in_app_or in H; destruct H as [H|[H|[]]]; auto.
  - unfold stopper_step; simpl.
    destruct (st i); simpl; try destruct (mutex_free w); simpl; auto.
Qed.

Lemma run_seen_false (ms : Z) (s : list Thread) (w : World) :
  In false (seen (run ms s (boot w))) ->
  cycleFlag (world (run ms s (boot w))) = false.
Proof.
  apply (run_invariant
           (fun m => In false (seen m) -> cycleFlag (world m) = false)).
  - intros t m. apply step_seen_false.
  - simpl. contradiction.
Qed.

(** *** The threads and the functions run to completion *)

Lemma stopper_step_lock (i : nat) (m : Machine) :
  stoppers m i = stop_idle -> cycleLock (world m) = None ->
  stopper_step i m
  = {| world := with_cycleLock (world m) (Some (Stopper i));
       cycler := cycler m; seen := seen m;
       stoppers := set_stopper i stop_at_write (stoppers m) |}.
Proof.
  intros Idle Free. unfold stopper_step, mutex_free.
  rewrite Idle, Free. reflexivity.
Qed.

Lemma stopper_step_write (i : nat) (m : Machine) :
  stoppers m i = stop_at_write ->
  stopper_step i m
  = {| world := with_cycleFlag (world m) false;
       cycler := cycler m; seen := seen m;
       stoppers := set_stopper i stop_at_unlock (stoppers m) |}.
Proof. intros At. unfold stopper_step. rewrite At. reflexivity. Qed.

Lemma stopper_step_unlock (i : nat) (m : Machine) :
  stoppers m i = stop_at_unlock ->
  stopper_step i m
  = {| world := with_cycleLock (world m) None;
       cycler := cycler m; seen := seen m;
       stoppers := set_stopper i stop_idle (stoppers m) |}.
Proof. intros At. unfold stopper_step. rewrite At. reflexivity. Qed.

(** A thread that calls [stopSimulatedCycle] while the mutex is free and
    runs its three statements leaves the world [stopSimulatedCycle]
    leaves. *)
Lemma stopper_runs_stopSimulatedCycle (ms : Z) (i : nat) (m : Machine) :
  cycleLock (world m) = None -> stoppers m i = stop_idle ->
  world (run ms [Stopper i; Stopper i; Stopper i] m)
    = exec (stopSimulatedCycle (Stopper i)) (world m) /\
  stoppers (run ms [Stopper i; Stopper i; Stopper i] m) i = stop_idle /\
  cycler (run ms [Stopper i; Stopper i; Stopper i] m) = cycler m.
Proof.
  intros Free Idle.
  change (run ms [Stopper i; Stopper i; Stopper i] m)
    with (stopper_step i (stopper_step i (stopper_step i m))).
  rewrite (stopper_step_lock i m Idle Free).
  rewrite (stopper_step_write i {| world := _; cycler := _; seen := _;
                                   stoppers := _ |})
    by apply set_stopper_same.
  rewrite stopper_step_unlock by apply set_stopper_same.
  simpl. rewrite set_stopper_same. repeat split.
Qed.

(** With the flag false, [startSimulatedCycle] returns at once and makes
    no call; the cycler thread does the same in four statements. *)
Lemma startSimulatedCycle_flag_false (fuel : nat) (ms : Z) (w : World) :
  cycleLock w = None -> cycleFlag w = false ->
  startSimulatedCycle fuel Cycler ms w = (true, w) /\
  world (run ms [Cycler; Cycler; Cycler; Cycler] (boot w)) = w /\
  cycler (run ms [Cycler; Cycler; Cycler; Cycler] (boot w)) = returned.
Proof.
  destruct w as [cs dv c1 c2 c3 pe lk fl gp]. simpl.
  intros -> ->. destruct fuel; repeat split.
Qed.

(** The cycler alone, with the flag true: six statements are one
    iteration of the loop of [startSimulatedCycle], which does not return. *)
Lemma cycler_runs_cycle_while (ms : Z) (fuel : nat) (m : Machine) :
  cycler m = at_while true -> cycleLock (world m) = None ->
  cycleFlag (world m) = true ->
  world (run ms (repeat Cycler (fuel * 6)) m)
    = exec (cycle_while fuel Cycler ms true) (world m) /\
  cycler (run ms (repeat Cycler (fuel * 6)) m) = at_while true /\
  result (cycle_while fuel Cycler ms true) (world m) = false.
Proof.
  revert m. induction fuel as [|fuel IH]; intros m Hpc Free Flag.
  - simpl. auto.
  - destruct m as [w pc sn st].
    destruct w as [cs dv c1 c2 c3 pe lk fl gp].
    simpl in Hpc, Free, Flag. subst pc lk fl.
    exact (IH (run ms (repeat Cycler 6)
                 {| world := {| calls := cs; rateGroupDivisors := dv;
                                rateGroup1Context := c1; rateGroup2Context := c2;
                                rateGroup3Context := c3; pingEntries := pe;
                                cycleLock := None; cycleFlag := true;
                                gpio_line := gp |};
                    cycler := at_while true; seen := sn; stoppers := st |})
              eq_refl eq_refl eq_refl).
Qed.

Lemma startSimulatedCycle_flag_true (fuel : nat) (ms : Z) (w : World) :
  cycleLock w = None -> cycleFlag w = true ->
  world (run ms (repeat Cycler (3 + fuel * 6)) (boot w))
    = exec (startSimulatedCycle fuel Cycler ms) w /\
  cycler (run ms (repeat Cycler (3 + fuel * 6)) (boot w)) = at_while true /\
  result (startSimulatedCycle fuel Cycler ms) w = false.
Proof.
  destruct w as [cs dv c1 c2 c3 pe lk fl gp]. simpl. intros -> ->.
  exact (cycler_runs_cycle_while ms fuel
           (run ms (repeat Cycler 3)
              (boot {| calls := cs; rateGroupDivisors := dv;
                       rateGroup1Context := c1; rateGroup2Context := c2;
                       rateGroup3Context := c3; pingEntries := pe;
                       cycleLock := None; cycleFlag := true;
                       gpio_line := gp |}))
           eq_refl eq_refl eq_refl).
Qed.

Lemma ticks_iterations (ms : Z) (before : list Call) (k : nat) :
  List.length (filter is_callIsr (before ++ iterations ms k))
  = (List.length (filter is_callIsr before) + k)%nat.
Proof.
  induction k as [|k IH]; simpl.
  - rewrite app_nil_r. lia.
  - rewrite app_assoc, filter_app, length_app, IH. simpl. lia.
Qed.

(** ** C8: the loop of the simulated cycle *)

(** C8: [startSimulatedCycle] is called with the mutex free and runs
    under any schedule, with any number of threads calling
    [stopSimulatedCycle].  At every moment the cycler has read the flag
    [true] once for every tick callback it has made, each followed by one
    delay of the given period.  It reads the flag only while it holds the
    mutex, and what it has read is the value of the flag until it
    unlocks.  While it has not returned it can move, or a thread inside
    [stopSimulatedCycle] holds the mutex and can move.  When it has
    returned, its last read was [false], every read
    before was [true], and the flag is false.  Once the flag is false it
    stays false, the cycler makes at most one more tick callback, and it
    has returned after at most eight statements of its own. *)
Theorem cycle_stops_within_one_tick
    (ms : Z) (w : World) (before after : list Thread) :
  cycleLock w = None ->
  (exists k : nat,
      seen (cycle_after ms w before)
        = fst (cycler_record ms (cycler (cycle_after ms w before)) k) /\
      calls (world (cycle_after ms w before))
        = calls w ++ snd (cycler_record ms (cycler (cycle_after ms w before)) k)) /\
  (in_critical_section (cycler (cycle_after ms w before)) = true ->
   cycleLock (world (cycle_after ms w before)) = Some Cycler) /\
  (forall c : bool,
      just_read (cycler (cycle_after ms w before)) = Some c ->
      cycleFlag (world (cycle_after ms w before)) = c) /\
  (cycler (cycle_after ms w before) <> returned ->
   cycler_enabled (cycle_after ms w before) = true \/
   exists i : nat,
     cycleLock (world (cycle_after ms w before)) = Some (Stopper i) /\
     stoppers (cycle_after ms w before) i <> stop_idle) /\
  (cycler (cycle_after ms w before) = returned ->
   cycleFlag (world (cycle_after ms w before)) = false /\
   exists k : nat,
     seen (cycle_after ms w before) = repeat true k ++ [false] /\
     calls (world (cycle_after ms w before))
       = calls w ++ iterations ms k /\
     ticks (world (cycle_after ms w before)) = (ticks w + k)%nat) /\
  (cycleFlag (world (cycle_after ms w before)) = false ->
   cycleFlag (world (run ms after (cycle_after ms w before))) = false /\
   (ticks (world (run ms after (cycle_after ms w before)))
    <= ticks (world (cycle_after ms w before)) + 1)%nat /\
   (cycler_moves ms after (cycle_after ms w before) <= 8)%nat /\
   (cycler_moves ms after (cycle_after ms w before)
    = distance (cycler (cycle_after ms w before)) ->
    cycler (run ms after (cycle_after ms w before)) = returned)).
Proof.
  intros Free. unfold cycle_after.
  assert (Rec : recorded ms (calls w) (run ms before (boot w))).
  { apply (run_invariant (recorded ms (calls w))).
    - intros t m. apply step_recorded.
    - apply boot_recorded. }
  assert (Con : consistent (run ms before (boot w))).
  { apply (run_invariant consistent).
    - intros t m. apply step_consistent.
    - apply boot_consistent, Free. }
  pose proof Con as (K1 & _ & K3).
  split; [exact Rec|]. split; [exact (K1 Cycler)|]. split; [exact K3|].
  split; [intros NotRet; apply cycler_moves_or_stopper_moves; assumption|].
  split.
  - intros Ret. destruct Rec as (k & Hs & Hc). rewrite Ret in Hs, Hc.
    simpl in Hs, Hc. split.
    + apply run_seen_false. rewrite Hs. apply in_or_app. right. left. reflexivity.
    + exists k. split; [exact Hs|]. split; [exact Hc|].
      unfold ticks. rewrite Hc. apply ticks_iterations.
  - intros Flag. split; [apply run_flag_stays_false, Flag|].
    pose proof (run_owed ms after _ Flag) as Ho.
    pose proof (owed_at_most_one (cycler (run ms before (boot w)))) as H1.
    pose proof (run_distance ms after _ Flag) as Hd.
    pose proof (distance_at_most_eight (cycler (run ms before (boot w)))) as H8.
    split; [lia|]. split; [lia|].
    intros Hm. apply distance_zero. lia.
Qed.

(** An instance, with a period of 1000 ms: the cycler completes one
    iteration and reads the flag [true]; a thread then runs
    [stopSimulatedCycle]; the cycler makes its second and last tick
    callback and has returned after seven statements. *)
Lemma cycle_stops_within_one_tick_run :
  cycleLock fresh_world = None /\
  cycleFlag (world (cycle_after 1000 fresh_world schedule_until_stop)) = false /\
  cycler (cycle_after 1000 fresh_world schedule_until_stop) = at_while true /\
  ticks (world (run 1000 schedule_after_stop
                  (cycle_after 1000 fresh_world schedule_until_stop)))
    = 2%nat /\
  cycler (run 1000 schedule_after_stop
            (cycle_after 1000 fresh_world schedule_until_stop)) = returned.
Proof.
  split; [reflexivity|]. split; [reflexivity|]. split; [reflexivity|].
  split; [reflexivity|].
  apply (proj2 (proj2 (proj2 (proj2 (proj2 (proj2 (proj2 (proj2
           (cycle_stops_within_one_tick 1000 fresh_world
              schedule_until_stop schedule_after_stop eq_refl))))) eq_refl)))).
  reflexivity.
Defined.

(** ** C9: stopping is idempotent, the flag never goes back to true *)

Lemma cycle_while_cycleFlag (fuel : nat) (self : Thread) (ms : Z) :
  forall (cycling : bool) (w : World),
    cycleFlag (exec (cycle_while fuel self ms cycling) w) = cycleFlag w.
Proof.
  induction fuel as [|fuel IH]; intros [|] w; try reflexivity.
  cbn [cycle_while]. rewrite !exec_bind, IH. reflexivity.
Qed.

Lemma startSimulatedCycle_cycleFlag (fuel : nat) (self : Thread) (ms : Z)
    (w : World) :
  cycleFlag (exec (startSimulatedCycle fuel self ms) w) = cycleFlag w.
Proof.
  unfold startSimulatedCycle. rewrite !exec_bind, cycle_while_cycleFlag.
  reflexivity.
Qed.

(** C9: the flag is [true] at process start.  [stopSimulatedCycle] leaves
    it [false], and a second call, by whatever thread, leaves the state
    the first call left.  No operation of the file sets the flag back:
    the bring-up and the tear-down leave it as it is,
    [startSimulatedCycle] too, and no step of the cycler or of a thread
    that stops the cycle takes it from [false] to [true]. *)
Theorem stop_is_idempotent_and_flag_never_rises
    (fw : FrameworkConstants) (gpio : Z -> GpioDirection -> bool) :
  cycleFlag (initial_world fw gpio) = true /\
  (forall (self : Thread) (w : World),
      cycleFlag (exec (stopSimulatedCycle self) w) = false) /\
  (forall (self self' : Thread) (w : World),
      exec (stopSimulatedCycle self') (exec (stopSimulatedCycle self) w)
      = exec (stopSimulatedCycle self) w) /\
  (forall (state : TopologyState) (w : World),
      cycleFlag (exec (setupTopology fw state) w) = cycleFlag w) /\
  (forall (state : TopologyState) (w : World),
      cycleFlag (exec (teardownTopology state) w) = cycleFlag w) /\
  (forall (fuel : nat) (self : Thread) (ms : Z) (w : World),
      cycleFlag (exec (startSimulatedCycle fuel self ms) w) = cycleFlag w) /\
  (forall (ms : Z) (schedule : list Thread) (m : Machine),
      cycleFlag (world m) = false ->
      cycleFlag (world (run ms schedule m)) = false).
Proof.
  split; [reflexivity|]. split; [reflexivity|]. split; [reflexivity|].
  split; [intros; eapply logs_cycleFlag, setupTopology_logs|].
  split; [intros; eapply logs_cycleFlag, teardownTopology_logs|].
  split; [intros; apply startSimulatedCycle_cycleFlag|].
  intros ms schedule m. apply run_flag_stays_false.
Qed.

(** An instance: after [stopSimulatedCycle] a cycle that is started
    finds the flag false and leaves it false. *)
Lemma stop_is_idempotent_and_flag_never_rises_run :
  cycleFlag (exec (stopSimulatedCycle (Stopper 0)) fresh_world) = false /\
  cycleFlag (world (run 1000 schedule_after_stop
                      (boot (exec (stopSimulatedCycle (Stopper 0)) fresh_world))))
    = false.
Proof.
  split; [reflexivity|].
  apply (proj2 (proj2 (proj2 (proj2 (proj2 (proj2
           (stop_is_idempotent_and_flag_never_rises sample_constants gpio_works))))))
         1000 schedule_after_stop
         (boot (exec (stopSimulatedCycle (Stopper 0)) fresh_world))).
  reflexivity.
Defined.

(** ** Further properties of the bring-up and the tear-down *)

Lemma setupTopology_logs_from (fw : FrameworkConstants) (state : TopologyState)
    (w : World) (pre : list Call) :
  logs_from (setupTopology fw state) w pre
       (wiring_calls state ++ configuration_calls fw w ++
        [startTasks state] ++ network_calls fw state).
Proof.
  unfold wiring_calls, setupTopology. cbn [app].
  do 4 apply logs_from_call_then.
  apply logs_from_bind; [apply configureTopology_logs_from|].
  unfold network_calls.
  destruct (hostname state) as [host|]; [destruct (port state =? 0)|];
    cbn [app negb]; follow_calls.
Qed.

Lemma teardownTopology_logs_from (state : TopologyState) (w : World)
    (pre : list Call) :
  logs_from (teardownTopology state) w pre (teardown_calls state).
Proof. unfold teardownTopology, teardown_calls. follow_calls. Qed.

Lemma logs_from_then {A B : Type} (m : M A) (k : M B) (w : World)
    (pre l1 l2 : list Call) :
  logs_from m w pre l1 ->
  logs_from k w (pre ++ l1) l2 ->
  logs_from (bind m (fun _ => k)) w pre (l1 ++ l2).
Proof. intros H1 H2. apply logs_from_bind; assumption. Qed.

Lemma one_setup_settles (fw : FrameworkConstants) (state : TopologyState)
    (w : World) (live : Ledger) :
  settle (one_setup fw state w) live
  = Some ([], (UplinkBufferPool, mallocator) :: (CmdSeqBuffer, mallocator) :: live).
Proof.
  unfold one_setup, configuration_calls, network_calls, wiring_calls.
  destruct (gpio_line w 13 GPIO_OUT);
    (destruct (hostname state) as [host|]; [destruct (port state =? 0)|]);
    reflexivity.
Qed.

Lemma settle_app (l1 l2 : list Call) :
  forall (live live1 live2 : Ledger) (r1 r2 : list Handle),
    settle l1 live = Some (r1, live1) ->
    settle l2 live1 = Some (r2, live2) ->
    settle (l1 ++ l2) live = Some (r1 ++ r2, live2).
Proof.
  induction l1 as [|c l1 IH]; intros live live1 live2 r1 r2 H1 H2.
  - simpl in H1. injection H1 as <- <-. exact H2.
  - simpl in *. destruct (acquires c) as [h|].
    + eapply IH; eassumption.
    + destruct (releases c) as [[r a]|].
      * destruct (take_out r a live) as [[h live']|]; [|discriminate].
        destruct (settle l1 live') as [[released final]|] eqn:E; [|discriminate].
        injection H1 as <- <-.
        rewrite (IH _ _ _ _ _ E H2). reflexivity.
      * eapply IH; eassumption.
Qed.

Lemma settle_app_none (l1 l2 : list Call) :
  forall (live live1 : Ledger) (r1 : list Handle),
    settle l1 live = Some (r1, live1) ->
    settle l2 live1 = None ->
    settle (l1 ++ l2) live = None.
Proof.
  induction l1 as [|c l1 IH]; intros live live1 r1 H1 H2.
  - simpl in H1. injection H1 as <- <-. exact H2.
  - simpl in *. destruct (acquires c) as [h|].
    + eapply IH; eassumption.
    + destruct (releases c) as [[r a]|].
      * destruct (take_out r a live) as [[h live']|]; [|discriminate].
        destruct (settle l1 live') as [[released final]|] eqn:E; [|discriminate].
        injection H1 as <- <-.
        rewrite (IH _ _ _ E H2). reflexivity.
      * eapply IH; eassumption.
Qed.

Lemma one_round_settles (fw : FrameworkConstants) (state : TopologyState)
    (w : World) :
  settle (one_setup fw state w ++ teardown_calls state) []
  = Some ([(CmdSeqBuffer, mallocator); (UplinkBufferPool, mallocator)], []).
Proof.
  apply (settle_app _ _ _ _ _ [] _ (one_setup_settles fw state w [])).
  reflexivity.
Qed.

Lemma rounds_logs_from (fw : FrameworkConstants) (state : TopologyState)
    (w : World) (n : nat) :
  forall pre : list Call,
    logs_from (setup_teardown_rounds fw state n) w pre
      (concat (repeat (one_setup fw state w ++ teardown_calls state) n)).
Proof.
  induction n as [|n IH]; intros pre;
    cbn [setup_teardown_rounds repeat concat].
  - apply logs_from_ret.
  - rewrite <- app_assoc.
    apply logs_from_then; [apply setupTopology_logs_from|].
    apply logs_from_then; [apply teardownTopology_logs_from|].
    apply IH.
Qed.

Lemma rounds_settle (l : list Call) (released : list Handle) (n : nat) :
  settle l [] = Some (released, []) ->
  settle (concat (repeat l n)) [] = Some (concat (repeat released n), []).
Proof.
  intros H. induction n as [|n IH]; cbn [repeat concat]; [reflexivity|].
  exact (settle_app _ _ _ _ _ _ _ H IH).
Qed.

Lemma count_handle_app (h : Handle) (l1 l2 : list Handle) :
  count_handle h (l1 ++ l2) = (count_handle h l1 + count_handle h l2)%nat.
Proof. unfold count_handle. rewrite filter_app, length_app. reflexivity. Qed.

Lemma count_handle_rounds (h : Handle) (l : list Handle) (n : nat) :
  count_handle h (concat (repeat l n)) = (n * count_handle h l)%nat.
Proof.
  induction n as [|n IH]; simpl; [reflexivity|].
  rewrite count_handle_app, IH. reflexivity.
Qed.

Lemma collect_app {A B : Type} (f : A -> option B) (l1 l2 : list A) :
  collect f (l1 ++ l2) = collect f l1 ++ collect f l2.
Proof.
  induction l1 as [|a l1 IH]; simpl; [reflexivity|].
  destruct (f a); simpl; rewrite IH; reflexivity.
Qed.

Lemma acquisitions_one_round (fw : FrameworkConstants)
    (state : TopologyState) (w : World) :
  acquisitions (one_setup fw state w ++ teardown_calls state)
  = [(CmdSeqBuffer, mallocator); (UplinkBufferPool, mallocator)].
Proof.
  unfold one_setup, configuration_calls, network_calls, wiring_calls.
  destruct (gpio_line w 13 GPIO_OUT);
    (destruct (hostname state) as [host|]; [destruct (port state =? 0)|]);
    reflexivity.
Qed.

Lemma acquisitions_rounds (l : list Call) (n : nat) :
  acquisitions (concat (repeat l n)) = concat (repeat (acquisitions l) n).
Proof.
  unfold acquisitions. induction n as [|n IH]; simpl; [reflexivity|].
  rewrite collect_app, IH. reflexivity.
Qed.

(** X1: bring-ups and tear-downs can be repeated.  Any number [n] of
    bring-ups, each followed by its tear-down, books without a release
    that finds no live handle: every handle is acquired [n] times and
    released [n] times, and none is live at the end. *)
Theorem setup_teardown_rounds_balance
    (fw : FrameworkConstants) (state : TopologyState) (w : World) (n : nat) :
  exists released : list Handle,
    settle (trace (setup_teardown_rounds fw state n) w) []
      = Some (released, []) /\
    List.length released = (2 * n)%nat /\
    forall h : Handle,
      count_handle h released
      = count_handle h (acquisitions (trace (setup_teardown_rounds fw state n) w))
      /\ (In h released ->
          count_handle h released = n).
Proof.
  rewrite (logs_trace _ _ _ (logs_from_nil _ _ _ (rounds_logs_from fw state w n []))).
  exists (concat (repeat [(CmdSeqBuffer, mallocator); (UplinkBufferPool, mallocator)] n)).
  split; [apply rounds_settle, one_round_settles|].
  split.
  - induction n as [|n IH]; simpl; [reflexivity|]. rewrite IH. lia.
  - intros h. rewrite acquisitions_rounds, acquisitions_one_round. split; [reflexivity|].
    intros Hin. rewrite count_handle_rounds.
    assert (Hh : h = (CmdSeqBuffer, mallocator) \/ h = (UplinkBufferPool, mallocator)).
    { clear - Hin. induction n as [|n IH]; simpl in Hin; [contradiction|].
      destruct Hin as [<-|[<-|Hin]]; auto. }
    destruct Hh as [-> | ->]; vm_compute count_handle; lia.
Qed.

(** X2: a tear-down that is not paired with a bring-up releases what is
    not live.  Booked from an empty ledger, a tear-down with no bring-up
    before it finds no live handle, and so does the second of two
    tear-downs that follow one bring-up. *)
Theorem unpaired_teardown_releases_dead_handle
    (fw : FrameworkConstants) (state : TopologyState) (w : World) :
  settle (trace (teardownTopology state) w) [] = None /\
  settle (trace (setup_teardown_teardown fw state) w) [] = None.
Proof.
  split.
  - rewrite teardown_trace_anywhere. reflexivity.
  - assert (L : logs_from (setup_teardown_teardown fw state) w []
                  (one_setup fw state w ++ teardown_calls state ++ teardown_calls state)).
    { unfold setup_teardown_teardown.
      apply logs_from_then; [apply setupTopology_logs_from|].
      apply logs_from_then; apply teardownTopology_logs_from. }
    rewrite (logs_trace _ _ _ (logs_from_nil _ _ _ L)).
    rewrite app_assoc.
    apply (settle_app_none _ _ _ _ _ (one_round_settles fw state w)).
    reflexivity.
Qed.

(** X3: a bring-up that is not paired with a tear-down leaves its handles
    live.  After two bring-ups and one tear-down one command-sequence
    buffer and one uplink buffer pool have been released and one of each
    is still live. *)
Theorem unpaired_setup_leaves_handles_live
    (fw : FrameworkConstants) (state : TopologyState) (w : World) :
  settle (trace (setup_setup_teardown fw state) w) []
  = Some ([(CmdSeqBuffer, mallocator); (UplinkBufferPool, mallocator)],
          [(UplinkBufferPool, mallocator); (CmdSeqBuffer, mallocator)]).
Proof.
  assert (L : logs_from (setup_setup_teardown fw state) w []
                (one_setup fw state w ++ one_setup fw state w ++ teardown_calls state)).
  { unfold setup_setup_teardown.
    apply logs_from_then; [apply setupTopology_logs_from|].
    apply logs_from_then; [apply setupTopology_logs_from|].
    apply teardownTopology_logs_from. }
  rewrite (logs_trace _ _ _ (logs_from_nil _ _ _ L)).
  apply (settle_app _ _ _ _ _ [] _ (one_setup_settles fw state w [])).
  apply (settle_app _ _ _ _ _ [] _ (one_setup_settles fw state w _)).
  reflexivity.
Qed.

(** X4: the error line is printed exactly when the GPIO line does not
    open.  Every bring-up opens one GPIO line, pin 13 as an output, once;
    it prints the error line if and only if that call fails, and prints
    nothing else. *)
Theorem gpio_error_line_iff_open_fails
    (fw : FrameworkConstants) (state : TopologyState) (w : World) :
  filter is_gpio_open (setup_trace fw state w) = [gpioDriver_open 13 GPIO_OUT] /\
  filter is_printf (setup_trace fw state w)
    = (if gpio_line w 13 GPIO_OUT then []
       else [printf ("[ERROR] Failed to open GPIO pin" ++ LF)%string]) /\
  (In (printf ("[ERROR] Failed to open GPIO pin" ++ LF)%string)
      (setup_trace fw state w)
   <-> gpio_line w 13 GPIO_OUT = false).
Proof.
  rewrite setup_trace_eq.
  unfold configuration_calls, network_calls, wiring_calls.
  destruct (gpio_line w 13 GPIO_OUT);
    (destruct (hostname state) as [host|]; [destruct (port state =? 0)|]);
    simpl; repeat split; try discriminate; auto 30;
    intros H; repeat (destruct H as [H|H]; try discriminate H); contradiction.
Qed.

(** ** Further properties of the simulated cycle *)






(** X6: a cycle that has been stopped cannot be started again.  After
    [stopSimulatedCycle], whoever called it and whatever the state was,
    [startSimulatedCycle] returns at its first test: it makes no tick
    callback and no delay and leaves the state [stopSimulatedCycle]
    left. *)
Theorem start_after_stop_returns_at_once
    (stopper self : Thread) (fuel : nat) (ms : Z) (w : World) :
  result (stop_then_start stopper self fuel ms) w = true /\
  trace (stop_then_start stopper self fuel ms) w = [] /\
  exec (stop_then_start stopper self fuel ms) w
    = exec (stopSimulatedCycle stopper) w.
Proof.
  destruct w as [cs dv c1 c2 c3 pe lk fl gp].
  unfold trace, result, exec.
  destruct fuel; simpl; (split; [reflexivity|]); (split; [|reflexivity]);
    apply skipn_all.
Qed.

(** *** Mutual exclusion *)

Lemma step_written_flag_false (ms : Z) (t : Thread) (m : Machine) :
  (forall i, stoppers m i = stop_at_unlock -> cycleFlag (world m) = false) ->
  forall i, stoppers (step ms t m) i = stop_at_unlock ->
            cycleFlag (world (step ms t m)) = false.
Proof.
  destruct m as [w pc sn st]. simpl. intros J.
  destruct t as [|j]; simpl.
  - unfold cycler_step; simpl.
    destruct pc as [| |c|c| | | | |c|]; simpl;
      try destruct (mutex_free w); try destruct c; simpl; auto.
  - unfold stopper_step; simpl.
    destruct (st j) eqn:Sj; simpl; try destruct (mutex_free w); simpl; auto;
      intros i; unfold set_stopper; destruct (Nat.eqb i j); intros H;
      try discriminate H; try reflexivity; eauto.
Qed.

(** X7: the mutex of the cycle excludes.  Under every schedule, with any
    number of threads calling [stopSimulatedCycle] while the cycle runs,
    at most one thread is between its [lock()] and its [unLock()], that
    thread is the one that holds the mutex, the mutex is free when no
    thread is inside, and a thread that has written the flag and not yet
    unlocked finds the flag false. *)
Theorem cycle_mutex_excludes
    (ms : Z) (w : World) (schedule : list Thread) :
  cycleLock w = None ->
  (forall t t' : Thread,
      inside (cycle_after ms w schedule) t ->
      inside (cycle_after ms w schedule) t' -> t = t') /\
  (forall t : Thread,
      inside (cycle_after ms w schedule) t
      <-> cycleLock (world (cycle_after ms w schedule)) = Some t) /\
  (cycleLock (world (cycle_after ms w schedule)) = None
   <-> forall t : Thread, ~ inside (cycle_after ms w schedule) t) /\
  (forall i : nat,
      stoppers (cycle_after ms w schedule) i = stop_at_unlock ->
      cycleFlag (world (cycle_after ms w schedule)) = false).
Proof.
  intros Free. unfold cycle_after.
  assert (Con : consistent (run ms schedule (boot w))).
  { apply (run_invariant consistent).
    - intros t m. apply step_consistent.
    - apply boot_consistent, Free. }
  destruct Con as (K1 & K2 & _).
  split; [|split; [|split]].
  - intros t t' H H'. apply K1 in H. apply K1 in H'. congruence.
  - intros t. split; [apply K1|apply K2].
  - split.
    + intros N t H. apply K1 in H. congruence.
    + intros N.
      destruct (cycleLock (world (run ms schedule (boot w)))) as [t|] eqn:L;
        [|reflexivity].
      destruct (N t (K2 t eq_refl)).
  - apply (run_invariant
             (fun m => forall i, stoppers m i = stop_at_unlock ->
                                 cycleFlag (world m) = false)).
    + intros t m. apply step_written_flag_false.
    + simpl. discriminate.
Qed.

(** An instance: the cycler has locked and read; a stopping thread that is
    scheduled then does not get inside. *)
Lemma cycle_mutex_excludes_run :
  cycleLock fresh_world = None /\
  inside (cycle_after 1000 fresh_world [Cycler; Cycler; Stopper 0]) Cycler /\
  cycleLock (world (cycle_after 1000 fresh_world [Cycler; Cycler; Stopper 0]))
    = Some Cycler.
Proof.
  split; [reflexivity|]. split; [reflexivity|].
  apply (proj1 (proj2 (cycle_mutex_excludes 1000 fresh_world
                         [Cycler; Cycler; Stopper 0] eq_refl)) Cycler).
  reflexivity.
Defined.

(** *** The tick callbacks after a stop *)

Lemma step_owed_exact (ms : Z) (t : Thread) (m : Machine) :
  cycleFlag (world m) = false ->
  (ticks (world (step ms t m)) + owed (cycler (step ms t m))
   = ticks (world m) + owed (cycler m))%nat.
Proof.
  destruct m as [w pc sn st]. simpl. intros H.
  destruct t as [|i]; simpl.
  - unfold cycler_step; simpl.
    destruct pc as [| |c|c| | | | |c|]; simpl;
      try destruct (mutex_free w); try destruct c; simpl;
      rewrite ?H, ?ticks_call; simpl; try lia; unfold ticks; simpl; lia.
  - unfold stopper_step; simpl.
    destruct (st i); simpl; try destruct (mutex_free w); simpl;
      unfold ticks; simpl; lia.
Qed.

Lemma run_owed_exact (ms : Z) (s : list Thread) (m : Machine) :
  cycleFlag (world m) = false ->
  (ticks (world (run ms s m)) + owed (cycler (run ms s m))
   = ticks (world m) + owed (cycler m))%nat.
Proof.
  revert m. induction s as [|t s IH]; intros m H; simpl; [lia|].
  pose proof (step_owed_exact ms t m H).
  pose proof (IH (step ms t m) (step_flag_stays_false ms t m H)).
  fold (run ms s (step ms t m)). lia.
Qed.

(** X8: how many tick callbacks follow a stop.  Once the flag is false
    and the cycler has returned, it has made exactly one tick callback
    since the moment the flag was found false if at that moment it had
    passed the loop test with the value [true] and not yet made the
    callback, and none otherwise: a stop that lands during the delay, or
    while the cycler waits for the mutex or reads, is followed by no tick
    callback. *)
Theorem ticks_after_stop_exact
    (ms : Z) (w : World) (before after : list Thread) :
  cycleLock w = None ->
  cycleFlag (world (cycle_after ms w before)) = false ->
  cycler (run ms after (cycle_after ms w before)) = returned ->
  ticks (world (run ms after (cycle_after ms w before)))
  = (ticks (world (cycle_after ms w before))
     + if past_the_test (cycler (cycle_after ms w before)) then 1 else 0)%nat.
Proof.
  intros Free Flag Ret. unfold cycle_after in *.
  pose proof (run_owed_exact ms after _ Flag) as E.
  rewrite Ret in E. simpl in E.
  assert (Con : consistent (run ms before (boot w))).
  { apply (run_invariant consistent).
    - intros t m. apply step_consistent.
    - apply boot_consistent, Free. }
  destruct Con as (_ & _ & K3).
  assert (O : owed (cycler (run ms before (boot w)))
              = if past_the_test (cycler (run ms before (boot w))) then 1%nat
                else 0%nat).
  { destruct (cycler (run ms before (boot w))) as [| |c|c| | | | |c|];
      try reflexivity; destruct c; try reflexivity;
      specialize (K3 true eq_refl); congruence. }
  lia.
Qed.

(** An instance: the stop lands while the cycler stands before the loop
    test with [true]; one tick callback follows. *)
Lemma ticks_after_stop_exact_run :
  cycleLock fresh_world = None /\
  cycleFlag (world (cycle_after 1000 fresh_world schedule_until_stop)) = false /\
  ticks (world (run 1000 schedule_after_stop
                  (cycle_after 1000 fresh_world schedule_until_stop)))
  = (ticks (world (cycle_after 1000 fresh_world schedule_until_stop)) + 1)%nat.
Proof.
  split; [reflexivity|]. split; [reflexivity|].
  apply (ticks_after_stop_exact 1000 fresh_world
           schedule_until_stop schedule_after_stop); reflexivity.
Defined.

(** *** A stop request under alternation *)

Lemma run_append (ms : Z) (s1 s2 : list Thread) (m : Machine) :
  run ms (s1 ++ s2) m = run ms s2 (run ms s1 m).
Proof. apply fold_left_app. Qed.

Lemma cycler_step_stoppers (ms : Z) (m : Machine) :
  stoppers (cycler_step ms m) = stoppers m.
Proof.
  destruct m as [w pc sn st]. unfold cycler_step. simpl.
  destruct pc as [| |c|c| | | | |c|]; simpl;
    try destruct (mutex_free w); try destruct c; reflexivity.
Qed.

Lemma stopper_step_others (i j : nat) (m : Machine) :
  j <> i -> stoppers (stopper_step i m) j = stoppers m j.
Proof.
  intros Hj. destruct m as [w pc sn st]. unfold stopper_step. simpl.
  apply Nat.eqb_neq in Hj.
  destruct (st i); simpl; try destruct (mutex_free w); simpl;
    unfold set_stopper; rewrite ?Hj; reflexivity.
Qed.

Lemma boot_two_threads (w : World) : cycleLock w = None -> two_threads (boot w).
Proof. intros H. split; [apply boot_consistent, H|reflexivity]. Qed.

Lemma step_two_threads (ms : Z) (t : Thread) (m : Machine) :
  cycler_or_first_stopper t = true ->
  two_threads m -> two_threads (step ms t m).
Proof.
  intros Ht [Con Idle]. split; [apply step_consistent, Con|].
  intros j Hj. destruct t as [|i]; simpl in *.
  - rewrite cycler_step_stoppers. apply Idle, Hj.
  - apply Nat.eqb_eq in Ht. subst i.
    rewrite stopper_step_others by assumption. apply Idle, Hj.
Qed.

Lemma two_threads_free (m : Machine) :
  two_threads m -> mutex_free (world m) = core_free (abstraction m).
Proof.
  intros [(K1 & K2 & _) Idle]. unfold mutex_free, core_free, abstraction. simpl.
  destruct (cycleLock (world m)) as [t|] eqn:L.
  - specialize (K2 t eq_refl). destruct t as [|j]; simpl in K2.
    + rewrite K2. reflexivity.
    + destruct (Nat.eq_dec j 0) as [->|Hj].
      * destruct (stoppers m 0); [contradiction K2; reflexivity| |];
          rewrite andb_false_r; reflexivity.
      * contradiction K2. apply Idle, Hj.
  - destruct (in_critical_section (cycler m)) eqn:C.
    + specialize (K1 Cycler C). discriminate.
    + destruct (stoppers m 0) eqn:S0; [reflexivity| |];
        assert (H : None = Some (Stopper 0))
          by (apply (K1 (Stopper 0)); simpl; rewrite S0; discriminate);
        discriminate.
Qed.

Lemma two_threads_core_consistent (m : Machine) :
  two_threads m -> core_consistent (abstraction m) = true.
Proof.
  intros [(K1 & _ & K3) _]. unfold core_consistent, abstraction. simpl.
  apply andb_true_intro. split.
  - destruct (in_critical_section (cycler m)) eqn:C; [|reflexivity].
    destruct (stoppers m 0) eqn:S0; [reflexivity| |];
      assert (H : cycleLock (world m) = Some (Stopper 0))
        by (apply (K1 (Stopper 0)); simpl; rewrite S0; discriminate);
      specialize (K1 Cycler C); congruence.
  - destruct (just_read (cycler m)) as [b|] eqn:R; [|reflexivity].
    rewrite (K3 b eq_refl). apply Bool.eqb_reflx.
Qed.

Lemma step_abstraction (ms : Z) (t : Thread) (m : Machine) :
  cycler_or_first_stopper t = true -> two_threads m ->
  abstraction (step ms t m) = core_step t (abstraction m) /\
  ticks (world (step ms t m))
  = (ticks (world m) + core_ticks_at t (abstraction m))%nat.
Proof.
  intros Ht Two. pose proof (two_threads_free m Two) as F.
  destruct m as [w pc sn st]. unfold abstraction in *. simpl in F.
  destruct t as [|i]; simpl in Ht |- *.
  - unfold cycler_step, core_step, core_ticks_at. simpl. rewrite F.
    destruct pc as [| |c|c| | | | |c|]; simpl;
      try destruct (core_free _); try destruct c; simpl;
      rewrite ?ticks_call; simpl; (split; [reflexivity|]);
      try lia; unfold ticks; simpl; lia.
  - apply Nat.eqb_eq in Ht. subst i.
    unfold stopper_step, core_step, core_ticks_at. simpl.
    revert F. destruct (st 0%nat) eqn:S0; intros F; simpl; rewrite ?F;
      try destruct (core_free _); simpl;
      unfold set_stopper; simpl; rewrite ?S0;
      (split; [reflexivity|]); unfold ticks; simpl; lia.
Qed.

Lemma run_abstraction (ms : Z) (s : list Thread) :
  forall m : Machine,
    forallb cycler_or_first_stopper s = true -> two_threads m ->
    abstraction (run ms s m) = fst (core_run s (abstraction m)) /\
    ticks (world (run ms s m))
    = (ticks (world m) + snd (core_run s (abstraction m)))%nat /\
    two_threads (run ms s m).
Proof.
  induction s as [|t s IH]; intros m Hs Two; simpl.
  - split; [reflexivity|]. split; [lia|exact Two].
  - simpl in Hs. apply andb_prop in Hs. destruct Hs as [Ht Hs].
    destruct (step_abstraction ms t m Ht Two) as [A T].
    destruct (IH (step ms t m) Hs (step_two_threads ms t m Ht Two))
      as (A' & T' & Two').
    fold (run ms s (step ms t m)).
    rewrite A in A', T'.
    destruct (core_run s (core_step t (abstraction m))) as [c' n].
    simpl in *. split; [exact A'|]. split; [lia|exact Two'].
Qed.

Lemma alternate_two_threads (cycler_first : bool) (rounds : nat) :
  forallb cycler_or_first_stopper (alternate cycler_first rounds) = true.
Proof.
  unfold alternate. induction rounds as [|r IH]; simpl; [reflexivity|].
  rewrite forallb_app, IH. destruct cycler_first; reflexivity.
Qed.

Lemma alternate_more (cycler_first : bool) (r extra : nat) :
  alternate cycler_first (r + extra)
  = alternate cycler_first r ++ alternate cycler_first extra.
Proof. unfold alternate. rewrite repeat_app, concat_app. reflexivity. Qed.

Lemma all_cores_complete (c : Core) : In c all_cores.
Proof.
  destruct c as [pc s b].
  destruct pc as [| |c|c| | | | |c|]; try destruct c; destruct s; destruct b;
    unfold all_cores, all_cycler_pcs; simpl;
    repeat first [left; reflexivity | right].
Qed.

Lemma thirteen_rounds_suffice (cycler_first : bool) (c : Core) :
  core_consistent c = true -> returns_within cycler_first 13 1 c = true.
Proof.
  intros Ok.
  assert (All : forallb (fun c => implb (core_consistent c)
                                    (returns_within cycler_first 13 1 c))
                  all_cores = true)
    by (destruct cycler_first; vm_compute; reflexivity).
  rewrite forallb_forall in All.
  specialize (All c (all_cores_complete c)). rewrite Ok in All. exact All.
Qed.

Lemma returned_stays (ms : Z) (s : list Thread) :
  forall m : Machine,
    cycler m = returned ->
    cycler (run ms s m) = returned /\
    ticks (world (run ms s m)) = ticks (world m).
Proof.
  induction s as [|t s IH]; intros m Ret; simpl; [auto|].
  fold (run ms s (step ms t m)).
  assert (H : cycler (step ms t m) = returned /\
              ticks (world (step ms t m)) = ticks (world m)).
  { destruct m as [w pc sn st]. simpl in Ret. subst pc.
    destruct t as [|i]; simpl; [auto|].
    unfold stopper_step. simpl.
    destruct (st i); simpl; try destruct (mutex_free w); auto. }
  destruct H as [R T]. destruct (IH _ R) as [R' T']. split; congruence.
Qed.

(** X9: a stop request ends the cycle when the threads take turns.  The
    cycle has run under any schedule of the cycler and one stopping
    thread.  From then on the two take turns, whoever goes first, the
    stopping thread calling [stopSimulatedCycle] again and again.  After
    13 rounds, and after any number of rounds beyond, the cycler has
    returned and the flag is false, and at most one tick callback has
    been made since the turns began. *)
Theorem stop_request_ends_cycle_under_alternation
    (ms : Z) (w : World) (before : list Thread)
    (cycler_first : bool) (extra : nat) :
  cycleLock w = None ->
  forallb cycler_or_first_stopper before = true ->
  cycler (run ms (alternate cycler_first (13 + extra))
            (cycle_after ms w before)) = returned /\
  cycleFlag (world (run ms (alternate cycler_first (13 + extra))
                      (cycle_after ms w before))) = false /\
  (ticks (world (run ms (alternate cycler_first (13 + extra))
                   (cycle_after ms w before)))
   <= ticks (world (cycle_after ms w before)) + 1)%nat.
Proof.
  intros Free Before. unfold cycle_after.
  destruct (run_abstraction ms before (boot w) Before (boot_two_threads w Free))
    as (_ & _ & Two).
  pose proof (thirteen_rounds_suffice cycler_first _
                (two_threads_core_consistent _ Two)) as Ok.
  destruct (run_abstraction ms (alternate cycler_first 13) _
              (alternate_two_threads cycler_first 13) Two) as (A & T & _).
  unfold returns_within in Ok.
  destruct (core_run (alternate cycler_first 13)
              (abstraction (run ms before (boot w)))) as [c' n].
  simpl in A, T.
  apply andb_prop in Ok. destruct Ok as [Ok Hn].
  apply andb_prop in Ok. destruct Ok as [Hret Hflag].
  apply Nat.leb_le in Hn.
  assert (Ret : cycler (run ms (alternate cycler_first 13)
                          (run ms before (boot w))) = returned).
  { change (core_cycler (abstraction (run ms (alternate cycler_first 13)
                                        (run ms before (boot w)))) = returned).
    rewrite A. destruct (core_cycler c'); try discriminate. reflexivity. }
  assert (Flag : cycleFlag (world (run ms (alternate cycler_first 13)
                                     (run ms before (boot w)))) = false).
  { change (core_flag (abstraction (run ms (alternate cycler_first 13)
                                      (run ms before (boot w)))) = false).
    rewrite A. destruct (core_flag c'); [discriminate|reflexivity]. }
  rewrite alternate_more, run_append.
  destruct (returned_stays ms (alternate cycler_first extra) _ Ret) as [R' T'].
  split; [exact R'|]. split; [apply run_flag_stays_false, Flag|].
  rewrite T', T. lia.
Qed.

(** An instance: the cycler has run one iteration and a half alone when
    the turns begin, the stopping thread first. *)
Lemma stop_request_ends_cycle_under_alternation_run :
  cycleLock fresh_world = None /\
  forallb cycler_or_first_stopper (repeat Cycler 10) = true /\
  cycler (run 1000 (alternate false 13)
            (cycle_after 1000 fresh_world (repeat Cycler 10))) = returned.
Proof.
  split; [reflexivity|]. split; [reflexivity|].
  apply (proj1 (stop_request_ends_cycle_under_alternation
                  1000 fresh_world (repeat Cycler 10) false 0
                  eq_refl eq_refl)).
Defined.
